(** * dtreeviz: the XGBoost adapter [XGBDTree]

    A shallow embedding of [dtreeviz/models/xgb_decision_tree.py] and the
    properties of its node bookkeeping and sample routing.

    Conventions of the embedding:
    - Python and numpy integers are [Z]; positions in arrays are [nat].
    - Python floats are [spec_float] (IEEE 754 values with a single NaN).
    - A pandas object cell is a [pyval] (a string, a float, an int or None).
    - A call that can raise returns a [res]: [Ok v], [Raise e], or
      [OutOfFuel] when a recursion did not come back within the given
      depth (in CPython: the recursion limit).
    - A 1-D numpy array is a [list]; the pandas node table is a list of
      [Row] records, one per node, in table order. *)

From Stdlib Require Import ZArith String Ascii Decimal DecimalString DecimalNat.
From Stdlib Require Import Floats.SpecFloat.
From stdpp Require Import gmap strings list fin_maps relations sorting.

Local Open Scope Z_scope.

(** ** Exceptions and results *)

Inductive exn : Type :=
  | IndexError
  | ValueError
  | TypeError
  | KeyError
  | OverflowError
  | AttributeError
  | VisualisationNotYetSupportedError (method_name model_name : string).

Inductive res (A : Type) : Type :=
  | Ok (a : A)
  | Raise (e : exn)
  | OutOfFuel.
Arguments Ok {A} a.
Arguments Raise {A} e.
Arguments OutOfFuel {A}.

Definition res_bind {A B : Type} (m : res A) (k : A → res B) : res B :=
  match m with
  | Ok a => k a
  | Raise e => Raise e
  | OutOfFuel => OutOfFuel
  end.

Notation "'let*' x ':=' m 'in' k" := (res_bind m (λ x, k))
  (at level 10, x name, m at level 100, k at level 200).

Fixpoint res_mapM {A B : Type} (f : A → res B) (l : list A) : res (list B) :=
  match l with
  | [] => Ok []
  | x :: l' =>
      let* y := f x in
      let* ys := res_mapM f l' in
      Ok (y :: ys)
  end.

Definition returns_normally {A : Type} (r : res A) : Prop :=
  match r with Ok _ => True | _ => False end.

(** ** Python values held by an object column of the node table *)

Inductive pyval : Type :=
  | PyStr (s : string)
  | PyFloat (f : spec_float)
  | PyInt (z : Z)
  | PyNone.

(** [math.isnan] on a float. *)
Definition float_isnan (f : spec_float) : bool :=
  match f with S754_nan => true | _ => false end.

(** [isinstance(value, str)]. *)
Definition is_str (v : pyval) : bool :=
  match v with PyStr _ => true | _ => false end.

(** pandas' notion of a missing cell, the one [fillna] replaces. *)
Definition isna (v : pyval) : bool :=
  match v with
  | PyFloat f => float_isnan f
  | PyNone => true
  | _ => false
  end.

(** ** Strings: [str.split], [str(int)] and [int(str)] *)

(** [s.split(sep)] for a one-character separator: every occurrence of
    [sep] cuts, and the result is never empty. *)
Fixpoint str_split (sep : ascii) (s : string) : list string :=
  match s with
  | EmptyString => [EmptyString]
  | String c s' =>
      if Ascii.eqb c sep then EmptyString :: str_split sep s'
      else match str_split sep s' with
           | [] => [String c EmptyString]
           | w :: ws => String c w :: ws
           end
  end.

(** [l[i]] on a Python list, for a position [i >= 0]. *)
Definition py_list_get {A : Type} (l : list A) (i : nat) : res A :=
  match l !! i with
  | Some x => Ok x
  | None => Raise IndexError
  end.

(** [str(n)] for a non-negative integer: its decimal digits. *)
Definition str_of_nat (n : nat) : string :=
  NilZero.string_of_uint (Nat.to_uint n).

Definition is_space (c : ascii) : bool :=
  let n := nat_of_ascii c in
  (((9 <=? n) && (n <=? 13)) || ((28 <=? n) && (n <=? 32)))%nat.

Fixpoint lstrip (s : string) : string :=
  match s with
  | EmptyString => EmptyString
  | String c s' => if is_space c then lstrip s' else s
  end.

Fixpoint rstrip (s : string) : string :=
  match s with
  | EmptyString => EmptyString
  | String c s' =>
      match rstrip s' with
      | EmptyString => if is_space c then EmptyString else String c EmptyString
      | r => String c r
      end
  end.

Definition digit_of_ascii (c : ascii) : option Z :=
  let n := nat_of_ascii c in
  if ((48 <=? n) && (n <=? 57))%nat then Some (Z.of_nat n - 48) else None.

(** The digits of an integer literal: decimal digits, with single
    underscores allowed between two digits. [after_digit] tells whether
    the previous character was a digit. *)
Fixpoint int_digits (acc : Z) (after_digit : bool) (s : string) : option Z :=
  match s with
  | EmptyString => if after_digit then Some acc else None
  | String c s' =>
      match digit_of_ascii c with
      | Some d => int_digits (10 * acc + d) true s'
      | None =>
          if Ascii.eqb c "_" && after_digit then int_digits acc false s'
          else None
      end
  end.

(** [int(s)] in base ten, for a string of ASCII characters: surrounding
    white space is dropped, one sign is allowed, anything else raises
    [ValueError]. (Python also reads the decimal digits of other
    scripts; the identifiers XGBoost writes have none.) *)
Definition int_of_str (s : string) : res Z :=
  let body := rstrip (lstrip s) in
  let signed :=
    match body with
    | String "-" r => (true, r)
    | String "+" r => (false, r)
    | _ => (false, body)
    end in
  match int_digits 0 false signed.2 with
  | Some n => Ok (if signed.1 then - n else n)
  | None => Raise ValueError
  end.

(** ** numpy helpers *)

(** Truncation of a finite float towards zero. *)
Definition float_trunc (f : spec_float) : res Z :=
  match f with
  | S754_zero _ => Ok 0
  | S754_finite s m e =>
      let mag := Z.shiftl (Z.pos m) e in
      Ok (if s then - mag else mag)
  | S754_infinity _ => Raise OverflowError
  | S754_nan => Raise ValueError
  end.

Definition int64_min : Z := - 2 ^ 63.
Definition int64_max : Z := 2 ^ 63 - 1.

(** One element of [to_numpy(dtype=int)] on a column pandas holds as
    Python objects (a column with a string in it): the value is
    converted as by [int(...)] and has to fit the array's 64-bit cells.
    A column without strings is held as numbers and converted by a cast,
    which gives the same result on finite floats within the 64-bit range
    and on integers below 2^53, and differs outside (an infinite float
    or an integer from 2^63 on is cast without an exception, an integer
    from 2^53 on that shares its column with NaN is rounded). *)
Definition to_int (v : pyval) : res Z :=
  let* z := match v with
            | PyStr s => int_of_str s
            | PyFloat f => float_trunc f
            | PyInt z => Ok z
            | PyNone => Raise TypeError
            end in
  if (int64_min <=? z) && (z <=? int64_max) then Ok z else Raise OverflowError.

(** [a[i]] on a 1-D array: a negative index counts from the end. *)
Definition np_getitem {A : Type} (a : list A) (i : Z) : res A :=
  let n := Z.of_nat (length a) in
  if (0 <=? i) && (i <? n) then py_list_get a (Z.to_nat i)
  else if (- n <=? i) && (i <? 0) then py_list_get a (Z.to_nat (n + i))
  else Raise IndexError.

(** [np.where(a == x)[0][0]]: the first position holding [x]; an empty
    selection raises [IndexError]. *)
Fixpoint first_index (a : list Z) (x : Z) : option nat :=
  match a with
  | [] => None
  | y :: a' => if y =? x then Some 0%nat else S <$> first_index a' x
  end.

(** A 2-D integer array with its second dimension kept apart, so that an
    array without rows still knows how many columns it has. *)
Record ndarray2 : Type := {
  ncols : nat;
  mrows : list (list Z)
}.

(** [m[:, k]]. *)
Definition np_column (m : ndarray2) (k : Z) : res (list Z) :=
  let c := Z.of_nat (ncols m) in
  if (- c <=? k) && (k <? c) then
    res_mapM (λ r, np_getitem r k) (mrows m)
  else Raise IndexError.

(** ** The collaborators: node table and booster *)

(** One row of [booster.trees_to_dataframe()], with the columns the
    adapter reads. [Yes] and [No] are object cells: the compound
    identifier of a child, or NaN for a leaf. *)
Record Row : Type := {
  Tree : Z;
  Node : Z;
  ID : string;
  Feature : string;
  Split : spec_float;
  Yes : pyval;
  No : pyval
}.

Definition column_names : list string :=
  ["Tree"; "Node"; "ID"; "Feature"; "Split"; "Yes"; "No"]%string.

(** [row.get(column_name)]: the cell, or None for an unknown column. *)
Definition row_get (r : Row) (column_name : string) : pyval :=
  if String.eqb column_name "Tree" then PyInt (Tree r)
  else if String.eqb column_name "Node" then PyInt (Node r)
  else if String.eqb column_name "ID" then PyStr (ID r)
  else if String.eqb column_name "Feature" then PyStr (Feature r)
  else if String.eqb column_name "Split" then PyFloat (Split r)
  else if String.eqb column_name "Yes" then Yes r
  else if String.eqb column_name "No" then No r
  else PyNone.

(** [df[column_name].to_numpy()]: an unknown column raises [KeyError]. *)
Definition df_column (df : list Row) (column_name : string) : res (list pyval) :=
  if bool_decide (column_name ∈ column_names)
  then Ok (map (λ r, row_get r column_name) df)
  else Raise KeyError.

(** The training feature matrix handed to the model. *)
Definition XData : Type := list (list spec_float).

(** The trained model, as far as the adapter looks at it. *)
Record Booster : Type := {
  (** [booster.trees_to_dataframe()], the rows of every tree *)
  trees_to_dataframe : list Row;
  (** [booster.feature_names] *)
  feature_names : list string;
  (** [booster.predict(xgb.DMatrix(x_data, ...), pred_leaf=True)]: one row
      per sample, one column per tree *)
  predict_pred_leaf : XData → ndarray2;
  (** [json.loads(booster.save_config())["learner"]["objective"]["name"]] *)
  config_objective_name : string
}.

(** ** The adapter *)

Definition LEFT_CHILDREN_COLUMN : string := "Yes".
Definition RIGHT_CHILDREN_COLUMN : string := "No".
Definition NO_CHILDREN : Z := -1.
Definition NO_SPLIT : Z := -2.
Definition NO_FEATURE : Z := -2.
Definition ROOT_NODE : Z := 0.

(** The attributes [__init__] sets. [x_data] is stored by the base class,
    which also keeps the booster as [tree_model]. *)
Record XGBDTree : Type := {
  booster : Booster;
  tree_index : Z;
  x_data : XData;
  tree_to_dataframe : list Row;
  children_left : list Z;
  children_right : list Z
}.

(** The methods [__init__] calls while the object is being filled in read
    only the attributes already set, so they take those as arguments:
    the booster and tree index for [_get_tree_dataframe], the stored
    table [self.tree_to_dataframe] for the three child-link methods. *)

(** [booster.trees_to_dataframe().query(f"Tree == {tree_index}")] *)
Definition _get_tree_dataframe (b : Booster) (idx : Z) : list Row :=
  filter (λ r, Tree r = idx) (trees_to_dataframe b).

Definition _get_column_value (self : XGBDTree) (column_name : string)
  : res (list pyval) :=
  df_column (_get_tree_dataframe (booster self) (tree_index self)) column_name.

Definition split_value (value : pyval) : res pyval :=
  match value with
  | PyStr s =>
      let* part := py_list_get (str_split "-" s) 1 in
      Ok (PyStr part)
  | _ => Ok value
  end.

(** [df.apply(lambda row: split_value(row.get(column_name)), axis=1)] *)
Definition _split_column_value (df : list Row) (column_name : string)
  : res (list pyval) :=
  res_mapM (λ row, split_value (row_get row column_name)) df.

(** [children.fillna(NO_CHILDREN)] *)
Definition _change_no_children_value (children : list pyval) : list pyval :=
  map (λ v, if isna v then PyInt NO_CHILDREN else v) children.

(** [_calculate_children], ending in [to_numpy(dtype=int)]. *)
Definition _calculate_children (df : list Row) (column_name : string)
  : res (list Z) :=
  let* children := _split_column_value df column_name in
  let children := _change_no_children_value children in
  res_mapM to_int children.

(** The assignments of [__init__]. The call of the base-class constructor
    that follows them is not part of this file; of what it stores, the
    methods below read [x_data] and the booster (as [tree_model]). *)
Definition __init__ (b : Booster) (idx : Z) (x : XData) : res XGBDTree :=
  let df := _get_tree_dataframe b idx in
  let* cl := _calculate_children df LEFT_CHILDREN_COLUMN in
  let* cr := _calculate_children df RIGHT_CHILDREN_COLUMN in
  Ok {| booster := b; tree_index := idx; x_data := x;
        tree_to_dataframe := df; children_left := cl; children_right := cr |}.

Definition nnodes (self : XGBDTree) : nat := length (tree_to_dataframe self).

Definition get_children_left (self : XGBDTree) : res (list Z) :=
  _calculate_children (tree_to_dataframe self) LEFT_CHILDREN_COLUMN.

Definition get_children_right (self : XGBDTree) : res (list Z) :=
  _calculate_children (tree_to_dataframe self) RIGHT_CHILDREN_COLUMN.

(** [node_split if not math.isnan(node_split) else NO_SPLIT] *)
Definition get_node_split (self : XGBDTree) (id : Z) : res pyval :=
  let* column := _get_column_value self "Split" in
  let* node_split := np_getitem column id in
  match node_split with
  | PyFloat f => if negb (float_isnan f) then Ok node_split else Ok (PyInt NO_SPLIT)
  | PyInt _ => Ok node_split
  | _ => Raise TypeError
  end.

(** [names.index(x)]: the first position of [x], or [ValueError]. *)
Fixpoint list_index (names : list string) (x : pyval) : res Z :=
  match names with
  | [] => Raise ValueError
  | n :: names' =>
      if match x with PyStr s => String.eqb n s | _ => false end then Ok 0
      else let* i := list_index names' x in Ok (1 + i)
  end.

Definition get_node_feature (self : XGBDTree) (id : Z) : res Z :=
  let* column := _get_column_value self "Feature" in
  let* feature_name := np_getitem column id in
  match list_index (feature_names (booster self)) feature_name with
  | Raise ValueError => Ok NO_FEATURE
  | r => r
  end.

(** The list comprehensions of [get_features] and [get_thresholds]. *)
Definition get_features (self : XGBDTree) : res (list Z) :=
  res_mapM (λ i, get_node_feature self (Z.of_nat i)) (seq 0 (nnodes self)).

Definition get_thresholds (self : XGBDTree) : res (list pyval) :=
  res_mapM (λ i, get_node_split self (Z.of_nat i)) (seq 0 (nnodes self)).

(** *** Sample routing *)

(** What the nested function [walk] works on: the list [prediction_path]
    it appends to, and a count of the [np.where] scans it has made (the
    count is bookkeeping of the model, not a Python variable). *)
Record walk_state : Type := {
  prediction_path : list Z;
  searches : nat
}.

Definition scanned (st : walk_state) : walk_state :=
  {| prediction_path := prediction_path st; searches := S (searches st) |}.

Definition appended (st : walk_state) (node : Z) : walk_state :=
  {| prediction_path := prediction_path st ++ [node]; searches := searches st |}.

(** [walk(node_id)]: [cl] and [cr] are [self.children_left] and
    [self.children_right]; [fuel] bounds the depth of the recursion. An
    [IndexError] from the empty selection is caught on the spot. *)
Fixpoint walk (cl cr : list Z) (fuel : nat) (node_id : Z) (st : walk_state)
  : res walk_state :=
  match fuel with
  | O => OutOfFuel
  | S fuel' =>
      if negb (node_id =? ROOT_NODE) then
        let* st :=
          match first_index cl node_id with
          | Some parent_node =>
              walk cl cr fuel' (Z.of_nat parent_node)
                   (appended (scanned st) (Z.of_nat parent_node))
          | None => Ok (scanned st)
          end in
        match first_index cr node_id with
        | Some parent_node =>
            walk cl cr fuel' (Z.of_nat parent_node)
                 (appended (scanned st) (Z.of_nat parent_node))
        | None => Ok (scanned st)
        end
      else Ok st
  end.

(** The body of [_get_leaf_prediction_path] up to its [return]. *)
Definition walk_from_leaf (self : XGBDTree) (fuel : nat) (leaf : Z)
  : res walk_state :=
  walk (children_left self) (children_right self) fuel leaf
       {| prediction_path := [leaf]; searches := 0 |}.

Definition _get_leaf_prediction_path (self : XGBDTree) (fuel : nat) (leaf : Z)
  : res (list Z) :=
  let* st := walk_from_leaf self fuel leaf in
  Ok (prediction_path st).

(** [for node_id in prediction_path: node_to_samples[node_id].append(sample_i)]
    on a [defaultdict(list)]. *)
Fixpoint record_path (node_to_samples : gmap Z (list nat)) (sample_i : nat)
    (path : list Z) : gmap Z (list nat) :=
  match path with
  | [] => node_to_samples
  | node_id :: path' =>
      record_path
        (<[node_id := (node_to_samples !!! node_id) ++ [sample_i]]> node_to_samples)
        sample_i path'
  end.

(** The loop over [enumerate(prediction_leaves)], from index [sample_i]. *)
Fixpoint route_samples (self : XGBDTree) (fuel : nat) (sample_i : nat)
    (prediction_leaves : list Z) (node_to_samples : gmap Z (list nat))
  : res (gmap Z (list nat)) :=
  match prediction_leaves with
  | [] => Ok node_to_samples
  | prediction_leaf :: rest =>
      let* prediction_path := _get_leaf_prediction_path self fuel prediction_leaf in
      route_samples self fuel (S sample_i) rest
                    (record_path node_to_samples sample_i prediction_path)
  end.

Definition get_node_samples (self : XGBDTree) (fuel : nat)
  : res (gmap Z (list nat)) :=
  let* prediction_leaves :=
    np_column (predict_pred_leaf (booster self) (x_data self)) (tree_index self) in
  route_samples self fuel 0 prediction_leaves ∅.

(** *** Classifier detection and unsupported operations *)

(** [True], [False] or [None]. *)
Definition is_classifier (self : XGBDTree) : res (option bool) :=
  let* objective_name :=
    py_list_get (str_split ":" (config_objective_name (booster self))) 0 in
  if String.eqb objective_name "binary" then Ok (Some true)
  else if String.eqb objective_name "reg" then Ok (Some false)
  else Ok None.

Definition criterion (self : XGBDTree) : res pyval :=
  Raise (VisualisationNotYetSupportedError "criterion()" "XGBoost").

Definition get_feature_path_importance (self : XGBDTree) (node_list : list Z)
  : res pyval :=
  Raise (VisualisationNotYetSupportedError "get_feature_path_importance()" "XGBoost").

Definition get_node_criterion (self : XGBDTree) : res pyval :=
  Raise (VisualisationNotYetSupportedError "get_node_criterion()" "XGBoost").

Definition get_max_depth (self : XGBDTree) : res pyval :=
  Raise (VisualisationNotYetSupportedError "get_max_depth()" "XGBoost").

Definition get_score (self : XGBDTree) : res pyval :=
  Raise (VisualisationNotYetSupportedError "get_score()" "XGBoost").

Definition get_min_samples_leaf (self : XGBDTree) : res pyval :=
  Raise (VisualisationNotYetSupportedError "get_min_samples_leaf()" "XGBoost").

(** *** The adapter as an object in a heap *)

(** The functions above say what a method computes from the values of
    the attributes it reads. Here the instance is placed in a heap: the
    mutable objects it keeps, receives or hands out (the booster, the
    node table, numpy arrays, lists, dictionaries) live at addresses, an
    attribute holds an address, and whoever has the address of an object
    can change that object in place. *)

Notation addr := nat (only parsing).

Inductive cell : Type :=
  | BoosterObj (b : Booster)
  | DataFrame (df : list Row)
  | NdArray (a : list Z)
  | ObjArray (a : list pyval)
  | PyList (l : list Z)
  | DefaultDict (m : gmap Z (list nat)).

(** A new object gets the next address, so the heap is a list. *)
Notation heap := (list cell) (only parsing).

(** A change in place does not change the class of an object. *)
Definition same_kind (c c' : cell) : bool :=
  match c, c' with
  | BoosterObj _, BoosterObj _ => true
  | DataFrame _, DataFrame _ => true
  | NdArray _, NdArray _ => true
  | ObjArray _, ObjArray _ => true
  | PyList _, PyList _ => true
  | DefaultDict _, DefaultDict _ => true
  | _, _ => false
  end.

(** Code that may raise and that reads and extends the heap. *)
Definition hres (A : Type) : Type := heap → res A * heap.

Definition hret {A : Type} (a : A) : hres A := λ h, (Ok a, h).

Definition hlift {A : Type} (r : res A) : hres A := λ h, (r, h).

Definition hbind {A B : Type} (m : hres A) (k : A → hres B) : hres B :=
  λ h, match m h with
       | (Ok a, h') => k a h'
       | (Raise e, h') => (Raise e, h')
       | (OutOfFuel, h') => (OutOfFuel, h')
       end.

Notation "'let!' x ':=' m 'in' k" := (hbind m (λ x, k))
  (at level 10, x name, m at level 100, k at level 200).

Fixpoint hmapM {A B : Type} (f : A → hres B) (l : list A) : hres (list B) :=
  match l with
  | [] => hret []
  | x :: l' =>
      let! y := f x in
      let! ys := hmapM f l' in
      hret (y :: ys)
  end.

(** Creating an object. *)
Definition hnew (c : cell) : hres addr := λ h, (Ok (length h), h ++ [c]).

(** Following an attribute to an object of the class a method expects;
    an object of another class lacks what the method asks of it. *)
Definition read_booster (r : addr) : hres Booster :=
  λ h, match h !! r with
       | Some (BoosterObj b) => (Ok b, h)
       | _ => (Raise AttributeError, h)
       end.

Definition read_table (r : addr) : hres (list Row) :=
  λ h, match h !! r with
       | Some (DataFrame df) => (Ok df, h)
       | _ => (Raise AttributeError, h)
       end.

Definition read_array (r : addr) : hres (list Z) :=
  λ h, match h !! r with
       | Some (NdArray a) => (Ok a, h)
       | _ => (Raise AttributeError, h)
       end.

(** The attributes lines 32-36 of [__init__] set. *)
Record own_attrs : Type := {
  ref_booster : addr;
  attr_tree_index : Z;
  ref_tree_to_dataframe : addr;
  ref_children_left : addr;
  ref_children_right : addr
}.

(** The base class [ShadowDecTree3] and the nodes it builds are not part
    of this file. The adapter calls its constructor (line 38) and, in
    [get_value], the method [n_sample_classes] of its nodes; both are
    taken as given, with whatever they do to the heap. The constructor
    gets the instance as lines 32-36 left it, the training data and the
    labels, and returns the node lists [internal] and [leaves] it stores
    on the instance. *)
Record ShadowDecTree3 : Type := {
  node : Type;
  node_id : node → Z;
  n_sample_classes : node → hres (list pyval);
  super_init : own_attrs → XData → list Z → hres (list node * list node)
}.

(** An instance: its own attributes and the ones the base class stores,
    as far as the methods here read them ([tree_model] is the booster
    again; the labels [y_data] are taken as integers). *)
Record instance (B : ShadowDecTree3) : Type := {
  own : own_attrs;
  attr_x_data : XData;
  attr_y_data : list Z;
  attr_internal : list (node B);
  attr_leaves : list (node B)
}.
Arguments own {B} _.
Arguments attr_x_data {B} _.
Arguments attr_y_data {B} _.
Arguments attr_internal {B} _.
Arguments attr_leaves {B} _.

(** [XGBDTree(booster, tree_index, x_data, y_data)], lines 32-38: [rb] is
    the address of the booster the caller passes. *)
Definition new_XGBDTree (B : ShadowDecTree3) (rb : addr) (idx : Z)
    (x : XData) (y : list Z) : hres (instance B) :=
  let! b := read_booster rb in
  let df := _get_tree_dataframe b idx in
  let! rdf := hnew (DataFrame df) in
  let! cl := hlift (_calculate_children df LEFT_CHILDREN_COLUMN) in
  let! rl := hnew (NdArray cl) in
  let! cr := hlift (_calculate_children df RIGHT_CHILDREN_COLUMN) in
  let! rr := hnew (NdArray cr) in
  let attrs := {| ref_booster := rb; attr_tree_index := idx;
                  ref_tree_to_dataframe := rdf;
                  ref_children_left := rl; ref_children_right := rr |} in
  let! nodes := super_init B attrs x y in
  hret {| own := attrs; attr_x_data := x; attr_y_data := y;
          attr_internal := nodes.1; attr_leaves := nodes.2 |}.

(** The attribute values a method finds when it runs. *)
Definition read_self {B : ShadowDecTree3} (o : instance B) : hres XGBDTree :=
  let! b := read_booster (ref_booster (own o)) in
  let! df := read_table (ref_tree_to_dataframe (own o)) in
  let! cl := read_array (ref_children_left (own o)) in
  let! cr := read_array (ref_children_right (own o)) in
  hret {| booster := b; tree_index := attr_tree_index (own o);
          x_data := attr_x_data o; tree_to_dataframe := df;
          children_left := cl; children_right := cr |}.

(** [isinstance(self.booster, Booster)] *)
Definition is_fit {B : ShadowDecTree3} (o : instance B) : hres bool :=
  λ h, match h !! ref_booster (own o) with
       | Some (BoosterObj _) => (Ok true, h)
       | _ => (Ok false, h)
       end.

(** [np.unique]: the distinct values, in increasing order. *)
Definition np_unique (a : list Z) : list Z := merge_sort Z.le (remove_dups a).

Definition classes (y_data : list Z) : list Z := np_unique y_data.

Definition nclasses (y_data : list Z) : nat := length (np_unique y_data).

(** [get_value], lines 155-157. *)
Definition get_value {B : ShadowDecTree3} (o : instance B) (id : Z)
  : hres (pyval * pyval) :=
  let all_nodes := attr_internal o ++ attr_leaves o in
  let! node_value :=
    hmapM (n_sample_classes B) (filter (λ n, node_id B n = id) all_nodes) in
  let! first := hlift (py_list_get node_value 0) in
  let! a := hlift (py_list_get first 0) in
  let! b := hlift (py_list_get first 1) in
  hret (a, b).

(** The methods of the class, with their arguments. [fuel] is the depth
    the recursion of the path walk may reach. *)
Inductive call : Type :=
  | Call_is_fit
  | Call_get_class_weights
  | Call_get_class_weight
  | Call_criterion
  | Call_get_children_left
  | Call_get_children_right
  | Call_get_node_split (id : Z)
  | Call_get_node_feature (id : Z)
  | Call_get_features
  | Call_get_node_samples (fuel : nat)
  | Call__get_leaf_prediction_path (fuel : nat) (leaf : Z)
  | Call__get_tree_dataframe
  | Call__get_column_value (column_name : string)
  | Call__split_column_value (column_name : string)
  | Call__change_no_children_value (children : list pyval)
  | Call__calculate_children (column_name : string)
  | Call_get_feature_path_importance (node_list : list Z)
  | Call_get_node_criterion
  | Call_get_thresholds
  | Call_get_value (id : Z)
  | Call_is_classifier
  | Call_nnodes
  | Call_nclasses
  | Call_classes
  | Call_get_max_depth
  | Call_get_score
  | Call_get_min_samples_leaf.

(** What a call hands back: a value, or the address of an object. *)
Inductive answer : Type :=
  | ARef (r : addr)
  | AVal (v : pyval)
  | AInt (z : Z)
  | ABool (b : bool)
  | AFlag (b : option bool)
  | APair (a b : pyval).

Definition res_map {A B : Type} (f : A → B) (r : res A) : res B :=
  let* a := r in Ok (f a).

(** [return obj] for an object the method has just made. *)
Definition returning (r : res cell) : hres answer :=
  let! c := hlift r in
  let! p := hnew c in
  hret (ARef p).

(** One call on the instance [o]. The functions above take the attribute
    values as a record, so a call first follows the attributes; on an
    instance whose attributes lead to objects of the classes [__init__]
    stored there, reading them changes nothing. An array, table, list or
    dictionary a method returns is an object it has just made. *)
Definition perform {B : ShadowDecTree3} (c : call) (o : instance B)
  : hres answer :=
  let! self := read_self o in
  match c with
  | Call_is_fit => let! b := is_fit o in hret (ABool b)
  | Call_get_class_weights => hret (AVal PyNone)
  | Call_get_class_weight => hret (AVal PyNone)
  | Call_criterion => hlift (res_map AVal (criterion self))
  | Call_get_children_left => returning (res_map NdArray (get_children_left self))
  | Call_get_children_right => returning (res_map NdArray (get_children_right self))
  | Call_get_node_split id => hlift (res_map AVal (get_node_split self id))
  | Call_get_node_feature id => hlift (res_map AInt (get_node_feature self id))
  | Call_get_features => returning (res_map NdArray (get_features self))
  | Call_get_node_samples fuel =>
      returning (res_map DefaultDict (get_node_samples self fuel))
  | Call__get_leaf_prediction_path fuel leaf =>
      returning (res_map PyList (_get_leaf_prediction_path self fuel leaf))
  | Call__get_tree_dataframe =>
      returning (Ok (DataFrame (_get_tree_dataframe (booster self) (tree_index self))))
  | Call__get_column_value column_name =>
      returning (res_map ObjArray (_get_column_value self column_name))
  | Call__split_column_value column_name =>
      returning (res_map ObjArray
                   (_split_column_value (tree_to_dataframe self) column_name))
  | Call__change_no_children_value children =>
      returning (Ok (ObjArray (_change_no_children_value children)))
  | Call__calculate_children column_name =>
      returning (res_map NdArray
                   (_calculate_children (tree_to_dataframe self) column_name))
  | Call_get_feature_path_importance node_list =>
      hlift (res_map AVal (get_feature_path_importance self node_list))
  | Call_get_node_criterion => hlift (res_map AVal (get_node_criterion self))
  | Call_get_thresholds => returning (res_map ObjArray (get_thresholds self))
  | Call_get_value id => let! v := get_value o id in hret (APair v.1 v.2)
  | Call_is_classifier => hlift (res_map AFlag (is_classifier self))
  | Call_nnodes => hret (AInt (Z.of_nat (nnodes self)))
  | Call_nclasses => hret (AInt (Z.of_nat (nclasses (attr_y_data o))))
  | Call_classes => returning (Ok (NdArray (classes (attr_y_data o))))
  | Call_get_max_depth => hlift (res_map AVal (get_max_depth self))
  | Call_get_score => hlift (res_map AVal (get_score self))
  | Call_get_min_samples_leaf => hlift (res_map AVal (get_min_samples_leaf self))
  end.

(** What the code around the instance can do: call a method, create an
    object of its own, or change in place an object it has the address
    of. It has the addresses of the objects that were there before the
    instance was made and of those a call has handed back. *)
Inductive action : Type :=
  | Invoke (c : call)
  | Allocate (c : cell)
  | Mutate (r : addr) (c : cell).

Record world : Type := {
  w_heap : heap;
  w_held : list addr
}.

Definition caller_step {B : ShadowDecTree3} (o : instance B) (a : action) (w : world)
  : option world :=
  match a with
  | Invoke c =>
      let out := perform c o (w_heap w) in
      Some {| w_heap := out.2;
              w_held := match out.1 with
                        | Ok (ARef p) => p :: w_held w
                        | _ => w_held w
                        end |}
  | Allocate c =>
      Some {| w_heap := w_heap w ++ [c];
              w_held := length (w_heap w) :: w_held w |}
  | Mutate r c =>
      match w_heap w !! r with
      | Some c0 =>
          if bool_decide (r ∈ w_held w) && same_kind c0 c
          then Some {| w_heap := <[r := c]> (w_heap w); w_held := w_held w |}
          else None
      | None => None
      end
  end.

Fixpoint caller_run {B : ShadowDecTree3} (o : instance B) (trace : list action)
    (w : world) : option world :=
  match trace with
  | [] => Some w
  | a :: trace' =>
      match caller_step o a w with
      | Some w' => caller_run o trace' w'
      | None => None
      end
  end.

(** The world right after the constructor returned: the caller has what
    was there before. *)
Definition world_after_init (h0 h1 : heap) : world :=
  {| w_heap := h1; w_held := seq 0 (length h0) |}.

(** The base class only creates objects of its own. *)
Definition base_allocates (B : ShadowDecTree3) : Prop :=
  (∀ (n : node B) (h : heap), h `prefix_of` (n_sample_classes B n h).2)
  ∧ (∀ (attrs : own_attrs) (x : XData) (y : list Z) (h : heap),
       h `prefix_of` (super_init B attrs x y h).2).

(** What an instance keeps to itself: the node table and the two child
    arrays it was built with are where its attributes point, and the
    code around it has no address of them. [self] holds the values
    [__init__] computed. *)
Definition kept {B : ShadowDecTree3} (o : instance B) (self : XGBDTree)
    (w : world) : Prop :=
  (∃ b, w_heap w !! ref_booster (own o) = Some (BoosterObj b))
  ∧ w_heap w !! ref_tree_to_dataframe (own o)
    = Some (DataFrame (tree_to_dataframe self))
  ∧ w_heap w !! ref_children_left (own o) = Some (NdArray (children_left self))
  ∧ w_heap w !! ref_children_right (own o) = Some (NdArray (children_right self))
  ∧ (ref_tree_to_dataframe (own o) ∉ w_held w)
  ∧ (ref_children_left (own o) ∉ w_held w)
  ∧ (ref_children_right (own o) ∉ w_held w)
  ∧ ∀ r, r ∈ w_held w → (r < length (w_heap w))%nat.

(** ** Notions used in the statements *)

(** An adapter that [__init__] has returned. *)
Definition constructed (self : XGBDTree) : Prop :=
  ∃ b idx x, __init__ b idx x = Ok self.

(** The part of a string before the first occurrence of [sep]. *)
Fixpoint before_sep (sep : ascii) (s : string) : string :=
  match s with
  | EmptyString => EmptyString
  | String c s' => if Ascii.eqb c sep then EmptyString else String c (before_sep sep s')
  end.

(** *** Child-link arrays as a tree *)

(** [p] is a parent of [c]: position [p] of one of the arrays holds [c]. *)
Definition parent_rel (cl cr : list Z) (p c : Z) : Prop :=
  ∃ i : nat, p = Z.of_nat i ∧ (cl !! i = Some c ∨ cr !! i = Some c).

(** How many cells of the two arrays refer to [c]. *)
Definition child_refs (cl cr : list Z) (c : Z) : nat :=
  (count_occ Z.eq_dec cl c + count_occ Z.eq_dec cr c)%nat.

Definition acyclic (cl cr : list Z) : Prop :=
  ∀ x, ¬ tc (parent_rel cl cr) x x.

(** The arrays describe a tree rooted at node 0: every other node id has
    exactly one parent and no node is its own ancestor. (That the root
    has no parent follows.) *)
Record well_formed_tree (cl cr : list Z) : Prop := {
  wf_same_length : length cl = length cr;
  wf_one_parent :
    ∀ i : nat, (0 < i < length cl)%nat → child_refs cl cr (Z.of_nat i) = 1%nat;
  wf_acyclic : acyclic cl cr
}.

(** *** Node tables as XGBoost writes them *)

(** The compound identifier of node [node] of tree [tree]. *)
Definition compound_id (tree node : nat) : string :=
  str_of_nat tree +:+ "-" +:+ str_of_nat node.

Definition NaN : pyval := PyFloat S754_nan.

(** A child cell of a table with [n] rows: missing, the identifier of one
    of the rows, or (for an already numeric column) its bare index. *)
Inductive child_ref (n : nat) : pyval → Prop :=
  | child_ref_none : child_ref n NaN
  | child_ref_id (tree node : nat) :
      (node < n)%nat → child_ref n (PyStr (compound_id tree node))
  | child_ref_index (node : nat) :
      (node < n)%nat → child_ref n (PyInt (Z.of_nat node)).

(** What a well-formed child cell stands for. *)
Inductive denotes : pyval → Z → Prop :=
  | denotes_none : denotes NaN NO_CHILDREN
  | denotes_id (tree node : nat) :
      denotes (PyStr (compound_id tree node)) (Z.of_nat node)
  | denotes_index (node : nat) : denotes (PyInt (Z.of_nat node)) (Z.of_nat node).

(** A binary decision tree with numbered nodes. *)
Inductive btree : Type :=
  | BLeaf (id : nat)
  | BSplit (id : nat) (yes no : btree).

Definition root_id (t : btree) : nat :=
  match t with BLeaf i => i | BSplit i _ _ => i end.

Fixpoint node_ids (t : btree) : list nat :=
  match t with
  | BLeaf i => [i]
  | BSplit i l r => i :: node_ids l ++ node_ids r
  end.

(** The table [df] carries the rows of [t]: the row at position [i]
    describes node [i], a split naming both children by their compound
    identifiers and a leaf leaving both cells missing. *)
Fixpoint describes (tree : nat) (df : list Row) (t : btree) : Prop :=
  match t with
  | BLeaf i => ∃ row, df !! i = Some row ∧ Yes row = NaN ∧ No row = NaN
  | BSplit i l r =>
      (∃ row, df !! i = Some row
              ∧ Yes row = PyStr (compound_id tree (root_id l))
              ∧ No row = PyStr (compound_id tree (root_id r)))
      ∧ describes tree df l ∧ describes tree df r
  end.

(** [df] is the node table of the single tree [t]: node ids are dense,
    [0 .. nnodes-1], with the root at 0. *)
Definition table_of_tree (tree : nat) (df : list Row) (t : btree) : Prop :=
  root_id t = 0%nat ∧ node_ids t ≡ₚ seq 0 (length df) ∧ describes tree df t.

(** The (node, child value) pairs a column is expected to decode to. *)
Fixpoint left_links (t : btree) : list (nat * Z) :=
  match t with
  | BLeaf i => [(i, NO_CHILDREN)]
  | BSplit i l r => (i, Z.of_nat (root_id l)) :: left_links l ++ left_links r
  end.

Fixpoint right_links (t : btree) : list (nat * Z) :=
  match t with
  | BLeaf i => [(i, NO_CHILDREN)]
  | BSplit i l r => (i, Z.of_nat (root_id r)) :: right_links l ++ right_links r
  end.

Fixpoint yes_children (t : btree) : list nat :=
  match t with
  | BLeaf _ => []
  | BSplit _ l r => root_id l :: yes_children l ++ yes_children r
  end.

Fixpoint no_children (t : btree) : list nat :=
  match t with
  | BLeaf _ => []
  | BSplit _ l r => root_id r :: no_children l ++ no_children r
  end.

(** The (parent, child) pairs of a tree. *)
Fixpoint edges (t : btree) : list (nat * nat) :=
  match t with
  | BLeaf _ => []
  | BSplit i l r => (i, root_id l) :: (i, root_id r) :: edges l ++ edges r
  end.

(** The (node, depth) pairs of a tree whose root lies at depth [k]. *)
Fixpoint depths (k : nat) (t : btree) : list (nat * nat) :=
  match t with
  | BLeaf i => [(i, k)]
  | BSplit i l r => (i, k) :: depths (S k) l ++ depths (S k) r
  end.

(** Exactly one of three. *)
Definition exactly_one (P Q R : Prop) : Prop :=
  (P ∧ ¬ Q ∧ ¬ R) ∨ (¬ P ∧ Q ∧ ¬ R) ∨ (¬ P ∧ ¬ Q ∧ R).

(** The samples routed to [node] when every sample is listed under each
    node of its path as often as the path holds it. *)
Definition routed_to (paths : list (list Z)) (first : nat) (node : Z) : list nat :=
  concat (imap (λ j path, replicate (count_occ Z.eq_dec path node) (first + j)%nat) paths).

(** What [_calculate_children] makes of one cell when nothing raises:
    [split_value], then [fillna], then the conversion to an integer. *)
Definition decode_cell (v : pyval) : res Z :=
  let* part := split_value v in
  to_int (if isna part then PyInt NO_CHILDREN else part).

Definition decoded (v : pyval) : Z :=
  match decode_cell v with Ok z => z | _ => NO_CHILDREN end.

(** A child cell as a node table can hold it, with the value it stands
    for: a missing cell (NaN or None) for no child, or the compound
    identifier of a node, whether or not that node has a row in the
    table. *)
Inductive link_cell : pyval → Z → Prop :=
  | link_missing (v : pyval) : isna v = true → link_cell v NO_CHILDREN
  | link_id (tree node : nat) :
      Z.of_nat node ≤ int64_max →
      link_cell (PyStr (compound_id tree node)) (Z.of_nat node).

(** ** A running example: one split and two leaves *)

Definition example_rows : list Row := [
  {| Tree := 0; Node := 0; ID := "0-0"; Feature := "f1";
     Split := S754_finite false 3 (-1);
     Yes := PyStr "0-1"; No := PyStr "0-2" |};
  {| Tree := 0; Node := 1; ID := "0-1"; Feature := "Leaf";
     Split := S754_nan; Yes := NaN; No := NaN |};
  {| Tree := 0; Node := 2; ID := "0-2"; Feature := "Leaf";
     Split := S754_nan; Yes := NaN; No := NaN |}
].

Definition example_leaves : ndarray2 :=
  {| ncols := 1; mrows := [[1]; [2]; [1]] |}.

Definition example_booster (objective : string) : Booster :=
  {| trees_to_dataframe := example_rows;
     feature_names := ["f0"; "f1"]%string;
     predict_pred_leaf := λ _, example_leaves;
     config_objective_name := objective |}.

Definition example_btree : btree := BSplit 0 (BLeaf 1) (BLeaf 2).

(** The adapter for tree 0 of the example. *)
Definition example_adapter : XGBDTree :=
  {| booster := example_booster "binary:logistic";
     tree_index := 0; x_data := [];
     tree_to_dataframe := example_rows;
     children_left := [1; -1; -1];
     children_right := [2; -1; -1] |}.

(** The adapter for a tree index the table has no rows for. *)
Definition absent_adapter (idx : Z) : XGBDTree :=
  {| booster := example_booster "binary:logistic";
     tree_index := idx; x_data := [];
     tree_to_dataframe := [];
     children_left := [];
     children_right := [] |}.

(** An adapter over a model whose objective name merely starts with the
    letters of "binary". *)
Definition binaryclass_adapter : XGBDTree :=
  {| booster := example_booster "binaryclass:logistic";
     tree_index := 0; x_data := [];
     tree_to_dataframe := example_rows;
     children_left := [1; -1; -1];
     children_right := [2; -1; -1] |}.

(** ** Notions and examples for the further properties *)

(** [p] is a parent the walk goes to from [c]: the first position of [c]
    in one of the arrays, [c] not being the root. *)
Definition first_parent (cl cr : list Z) (p c : Z) : Prop :=
  c ≠ ROOT_NODE
  ∧ ∃ i : nat, p = Z.of_nat i
               ∧ (first_index cl c = Some i ∨ first_index cr c = Some i).

(** A malformed table: node 1 names itself as its yes-child. *)
Definition cyclic_rows : list Row := [
  {| Tree := 0; Node := 0; ID := "0-0"; Feature := "Leaf";
     Split := S754_nan; Yes := NaN; No := NaN |};
  {| Tree := 0; Node := 1; ID := "0-1"; Feature := "f0";
     Split := S754_zero false; Yes := PyStr "0-1"; No := NaN |}
].

Definition cyclic_booster : Booster :=
  {| trees_to_dataframe := cyclic_rows;
     feature_names := ["f0"]%string;
     predict_pred_leaf := λ _, {| ncols := 1; mrows := [[1]] |};
     config_objective_name := "reg:squarederror" |}.

Definition cyclic_adapter : XGBDTree :=
  {| booster := cyclic_booster; tree_index := 0; x_data := [];
     tree_to_dataframe := cyclic_rows;
     children_left := [-1; 1];
     children_right := [-1; -1] |}.

(** A table whose child cells are strings without the separator. *)
Definition bare_reference_row : Row :=
  {| Tree := 0; Node := 0; ID := "0-0"; Feature := "f0";
     Split := S754_zero false; Yes := PyStr "1"; No := PyStr "2" |}.

Definition bare_reference_booster : Booster :=
  {| trees_to_dataframe := [bare_reference_row];
     feature_names := ["f0"]%string;
     predict_pred_leaf := λ _, {| ncols := 1; mrows := [] |};
     config_objective_name := "reg:squarederror" |}.

(** A stand-in for the base class in the examples: its constructor makes
    one object of its own and three nodes, and [n_sample_classes] hands
    back two counts in a new list. *)
Definition example_base : ShadowDecTree3 :=
  {| node := Z;
     node_id := λ n, n;
     n_sample_classes := λ n h, (Ok [PyInt 2; PyInt 1], h ++ [PyList [n]]);
     super_init := λ _ _ _ h, (Ok ([0], [1; 2]), h ++ [PyList [0; 1; 2]]) |}.

(** What the code around the example instance does: it takes the left
    array, overwrites the array it got, replaces the model behind the
    booster, and calls on. *)
Definition example_trace : list action :=
  [Invoke Call_get_children_left;
   Mutate 5 (NdArray [7; 7; 7]);
   Mutate 0 (BoosterObj cyclic_booster);
   Invoke (Call_get_node_samples 5);
   Invoke (Call_get_value 0)].

(** A table that names a node it has no row for, and leaves the other
    cell as None. *)
Definition dangling_rows : list Row := [
  {| Tree := 0; Node := 0; ID := "0-0"; Feature := "f0";
     Split := S754_finite false 3 (-1);
     Yes := PyStr "0-7"; No := PyNone |}
].

Definition dangling_booster : Booster :=
  {| trees_to_dataframe := dangling_rows;
     feature_names := ["f0"]%string;
     predict_pred_leaf := λ _, {| ncols := 1; mrows := [] |};
     config_objective_name := "reg:squarederror" |}.

(** ** Basic facts *)

Lemma res_bind_Ok {A B : Type} (m : res A) (k : A → res B) (b : B) :
  res_bind m k = Ok b ↔ ∃ a, m = Ok a ∧ k a = Ok b.
Proof.
  destruct m as [a|e|]; simpl; split; try (intros [a' [? ?]]); try discriminate.
  - intros H. exists a. auto.
  - congruence.
Qed.

Lemma res_mapM_Ok {A B : Type} (f : A → res B) (g : A → B) (l : list A) :
  (∀ x, x ∈ l → f x = Ok (g x)) → res_mapM f l = Ok (map g l).
Proof.
  induction l as [|a l IH]; intros H; simpl; [reflexivity|].
  rewrite (H a) by left. simpl.
  rewrite IH; [reflexivity|]. intros x Hx. apply H. right. exact Hx.
Qed.

Lemma py_list_get_Some {A : Type} (l : list A) (i : nat) (x : A) :
  l !! i = Some x → py_list_get l i = Ok x.
Proof. unfold py_list_get. intros ->. reflexivity. Qed.

Lemma np_getitem_nat {A : Type} (a : list A) (i : nat) (x : A) :
  a !! i = Some x → np_getitem a (Z.of_nat i) = Ok x.
Proof.
  intros H. unfold np_getitem.
  pose proof (lookup_lt_Some _ _ _ H) as Hlt.
  replace ((0 <=? Z.of_nat i) && (Z.of_nat i <? Z.of_nat (length a))) with true
    by (symmetry; apply andb_true_iff; split; [apply Z.leb_le|apply Z.ltb_lt]; lia).
  rewrite Nat2Z.id. apply py_list_get_Some, H.
Qed.

Lemma constructed_inv (self : XGBDTree) :
  constructed self →
  tree_to_dataframe self = _get_tree_dataframe (booster self) (tree_index self)
  ∧ _calculate_children (tree_to_dataframe self) LEFT_CHILDREN_COLUMN
    = Ok (children_left self)
  ∧ _calculate_children (tree_to_dataframe self) RIGHT_CHILDREN_COLUMN
    = Ok (children_right self).
Proof.
  intros (b & idx & x & H). unfold __init__ in H.
  destruct (_calculate_children (_get_tree_dataframe b idx) LEFT_CHILDREN_COLUMN)
    as [cl| |] eqn:Hl; simpl in H; try discriminate.
  destruct (_calculate_children (_get_tree_dataframe b idx) RIGHT_CHILDREN_COLUMN)
    as [cr| |] eqn:Hr; simpl in H; try discriminate.
  injection H as <-. simpl. auto.
Qed.

Lemma example_adapter_constructed :
  __init__ (example_booster "binary:logistic") 0 [] = Ok example_adapter.
Proof. reflexivity. Qed.

Lemma get_column_value_lookup (self : XGBDTree) (column_name : string)
    (i : nat) (row : Row) :
  constructed self →
  column_name ∈ column_names →
  tree_to_dataframe self !! i = Some row →
  ∃ column, _get_column_value self column_name = Ok column
            ∧ column !! i = Some (row_get row column_name).
Proof.
  intros Hc Hin Hrow. destruct (constructed_inv self Hc) as (Hdf & _).
  unfold _get_column_value, df_column. rewrite <- Hdf.
  rewrite bool_decide_eq_true_2 by exact Hin.
  eexists. split; [reflexivity|].
  rewrite list_lookup_fmap, Hrow. reflexivity.
Qed.

(** ** Node attributes *)

(** C2. For a valid node id of a constructed adapter, [get_node_split]
    returns the sentinel [NO_SPLIT] (-2) exactly when the raw "Split"
    value of that node is not-a-number, and otherwise returns the raw
    value itself. *)
Theorem get_node_split_sentinel_iff_nan (self : XGBDTree) (id : nat) (raw : spec_float) :
  constructed self →
  Split <$> tree_to_dataframe self !! id = Some raw →
  (get_node_split self (Z.of_nat id) = Ok (PyInt NO_SPLIT) ↔ float_isnan raw = true)
  ∧ (float_isnan raw = false → get_node_split self (Z.of_nat id) = Ok (PyFloat raw)).
Proof.
  intros Hc Hraw.
  destruct (tree_to_dataframe self !! id) as [row|] eqn:Hrow; [|discriminate].
  injection Hraw as <-.
  destruct (get_column_value_lookup self "Split" id row Hc) as (col & Hcol & Hi);
    [set_solver | exact Hrow |].
  change (row_get row "Split") with (PyFloat (Split row)) in Hi.
  unfold get_node_split. rewrite Hcol. simpl.
  rewrite (np_getitem_nat _ _ _ Hi). simpl.
  destruct (float_isnan (Split row)) eqn:Hnan; simpl.
  - split; [tauto | discriminate].
  - split; [|reflexivity]. split; [|discriminate].
    intros [=].
Qed.

Lemma get_node_split_witness :
  (get_node_split example_adapter 1 = Ok (PyInt NO_SPLIT) ↔ float_isnan S754_nan = true)
  ∧ (float_isnan S754_nan = false
     → get_node_split example_adapter 1 = Ok (PyFloat S754_nan)).
Proof.
  apply (get_node_split_sentinel_iff_nan example_adapter 1 S754_nan).
  - exists (example_booster "binary:logistic"), 0, []. reflexivity.
  - reflexivity.
Defined.

Lemma list_index_spec (names : list string) (s : string) :
  match list_index names (PyStr s) with
  | Ok z =>
      0 ≤ z ∧ names !! Z.to_nat z = Some s
      ∧ ∀ j : nat, (j < Z.to_nat z)%nat → names !! j ≠ Some s
  | Raise e => e = ValueError ∧ s ∉ names
  | OutOfFuel => False
  end.
Proof.
  induction names as [|n names IH]; simpl.
  - split; [reflexivity|]. apply not_elem_of_nil.
  - destruct (String.eqb n s) eqn:Heq.
    + apply String.eqb_eq in Heq. subst n. simpl.
      split; [lia|]. split; [reflexivity|]. intros j Hj. lia.
    + apply String.eqb_neq in Heq.
      destruct (list_index names (PyStr s)) as [z|e|]; simpl; [| |exact IH].
      * destruct IH as (Hz & Hlook & Hfirst).
        replace (Z.to_nat (1 + z)) with (S (Z.to_nat z)) by lia.
        split; [lia|]. split; [exact Hlook|].
        intros [|j] Hj; simpl; [congruence|]. apply Hfirst. lia.
      * destruct IH as (-> & Hnot). split; [reflexivity|].
        intros Hin. apply elem_of_cons in Hin as [->|Hin]; [congruence|tauto].
Qed.

(** C3. For a valid node id of a constructed adapter, [get_node_feature]
    always returns a value: the sentinel [NO_FEATURE] (-2) exactly when
    the node's feature name is not in the model's feature-name list, and
    otherwise the first position of the name in that list. *)
Theorem get_node_feature_sentinel_iff_absent (self : XGBDTree) (id : nat)
    (name : string) :
  constructed self →
  Feature <$> tree_to_dataframe self !! id = Some name →
  ∃ z, get_node_feature self (Z.of_nat id) = Ok z
       ∧ (z = NO_FEATURE ↔ name ∉ feature_names (booster self))
       ∧ (name ∈ feature_names (booster self) →
          0 ≤ z
          ∧ feature_names (booster self) !! Z.to_nat z = Some name
          ∧ ∀ j : nat, (j < Z.to_nat z)%nat →
                       feature_names (booster self) !! j ≠ Some name).
Proof.
  intros Hc Hname.
  destruct (tree_to_dataframe self !! id) as [row|] eqn:Hrow; [|discriminate].
  injection Hname as <-.
  destruct (get_column_value_lookup self "Feature" id row Hc) as (col & Hcol & Hi);
    [set_solver | exact Hrow |].
  change (row_get row "Feature") with (PyStr (Feature row)) in Hi.
  unfold get_node_feature. rewrite Hcol. simpl.
  rewrite (np_getitem_nat _ _ _ Hi). simpl.
  pose proof (list_index_spec (feature_names (booster self)) (Feature row)) as Hspec.
  destruct (list_index (feature_names (booster self)) (PyStr (Feature row)))
    as [z|e|]; [| |contradiction].
  - destruct Hspec as (Hz & Hlook & Hfirst). exists z.
    split; [reflexivity|]. split.
    + unfold NO_FEATURE. split; [lia|].
      intros Hnot. exfalso. apply Hnot. eapply list_elem_of_lookup_2, Hlook.
    + intros _. auto.
  - destruct Hspec as (-> & Hnot). exists NO_FEATURE.
    split; [reflexivity|]. split; [tauto|]. intros Hin. contradiction.
Qed.

Lemma get_node_feature_witness :
  ∃ z, get_node_feature example_adapter 0 = Ok z
       ∧ (z = NO_FEATURE ↔ "f1"%string ∉ ["f0"; "f1"]%string)
       ∧ ("f1"%string ∈ ["f0"; "f1"]%string →
          0 ≤ z
          ∧ ["f0"; "f1"]%string !! Z.to_nat z = Some "f1"%string
          ∧ ∀ j : nat, (j < Z.to_nat z)%nat →
                       ["f0"; "f1"]%string !! j ≠ Some "f1"%string).
Proof.
  apply (get_node_feature_sentinel_iff_absent example_adapter 0 "f1").
  - exists (example_booster "binary:logistic"), 0, []. reflexivity.
  - reflexivity.
Defined.

(** ** Classifier detection *)

Lemma str_split_head (sep : ascii) (s : string) :
  str_split sep s !! 0%nat = Some (before_sep sep s).
Proof.
  induction s as [|c s IH]; simpl; [reflexivity|].
  destruct (Ascii.eqb c sep); [reflexivity|].
  destruct (str_split sep s) as [|w ws]; [discriminate IH|].
  simpl in *. congruence.
Qed.

(** C5, as the code has it. [is_classifier] never fails and is decided by
    the part of the objective name before its first colon: exactly
    "binary" gives true, exactly "reg" gives false, anything else gives
    the indeterminate result. *)
Theorem is_classifier_by_objective_family (self : XGBDTree) :
  is_classifier self =
  Ok (let family := before_sep ":" (config_objective_name (booster self)) in
      if String.eqb family "binary" then Some true
      else if String.eqb family "reg" then Some false
      else None).
Proof.
  unfold is_classifier.
  rewrite (py_list_get_Some _ _ _ (str_split_head ":" _)). simpl.
  destruct (String.eqb _ "binary"); [reflexivity|].
  destruct (String.eqb _ "reg"); reflexivity.
Qed.

(** C5, as stated, fails: an objective name can begin with "binary"
    without its first colon-separated part being "binary". *)
Lemma is_classifier_prefix_counterexample :
  String.prefix "binary" (config_objective_name (booster binaryclass_adapter)) = true
  ∧ is_classifier binaryclass_adapter = Ok None.
Proof. split; reflexivity. Qed.

Lemma is_classifier_scenarios :
  is_classifier example_adapter = Ok (Some true)
  ∧ (∀ self, config_objective_name (booster self) = "reg:squarederror"%string
             → is_classifier self = Ok (Some false))
  ∧ (∀ self, config_objective_name (booster self) = "multi:softprob"%string
             → is_classifier self = Ok None).
Proof.
  split; [reflexivity|].
  split; intros self H; rewrite is_classifier_by_objective_family, H; reflexivity.
Qed.

(** ** Unsupported operations *)

(** C6. Each of the six unsupported operations raises
    [VisualisationNotYetSupportedError], naming itself and the model
    family, for every adapter and every argument; none returns a value. *)
Theorem unsupported_operations_raise (self : XGBDTree) (node_list : list Z) :
  criterion self
    = Raise (VisualisationNotYetSupportedError "criterion()" "XGBoost")
  ∧ get_feature_path_importance self node_list
    = Raise (VisualisationNotYetSupportedError "get_feature_path_importance()" "XGBoost")
  ∧ get_node_criterion self
    = Raise (VisualisationNotYetSupportedError "get_node_criterion()" "XGBoost")
  ∧ get_max_depth self
    = Raise (VisualisationNotYetSupportedError "get_max_depth()" "XGBoost")
  ∧ get_score self
    = Raise (VisualisationNotYetSupportedError "get_score()" "XGBoost")
  ∧ get_min_samples_leaf self
    = Raise (VisualisationNotYetSupportedError "get_min_samples_leaf()" "XGBoost")
  ∧ ¬ returns_normally (criterion self)
  ∧ ¬ returns_normally (get_feature_path_importance self node_list)
  ∧ ¬ returns_normally (get_node_criterion self)
  ∧ ¬ returns_normally (get_max_depth self)
  ∧ ¬ returns_normally (get_score self)
  ∧ ¬ returns_normally (get_min_samples_leaf self).
Proof. repeat split; simpl; tauto. Qed.

(** ** The child-link arrays over the adapter's life *)

Lemma hbind_Ok {A B : Type} (m : hres A) (k : A → hres B) (h h' : heap) (b : B) :
  hbind m k h = (Ok b, h') ↔ ∃ a h1, m h = (Ok a, h1) ∧ k a h1 = (Ok b, h').
Proof.
  unfold hbind. destruct (m h) as [[a| |] h1]; split.
  - intros H. exists a, h1. auto.
  - intros (a' & h1' & [= <- <-] & H). exact H.
  - discriminate.
  - intros (a' & h1' & [=] & _).
  - discriminate.
  - intros (a' & h1' & [=] & _).
Qed.

(** Binding keeps the heap growing when both parts do. *)
Lemma hbind_prefix {A B : Type} (m : hres A) (k : A → hres B) (h : heap) :
  h `prefix_of` (m h).2 →
  (∀ a h1, h1 `prefix_of` (k a h1).2) →
  h `prefix_of` (hbind m k h).2.
Proof.
  intros Hm Hk. unfold hbind. destruct (m h) as [[a| |] h1]; simpl in *; auto.
  etrans; [exact Hm|apply Hk].
Qed.

Lemma hret_prefix {A : Type} (a : A) (h : heap) : h `prefix_of` (hret a h).2.
Proof. reflexivity. Qed.

Lemma hlift_prefix {A : Type} (r : res A) (h : heap) : h `prefix_of` (hlift r h).2.
Proof. reflexivity. Qed.

Lemma hnew_prefix (c : cell) (h : heap) : h `prefix_of` (hnew c h).2.
Proof. simpl. apply prefix_app_r. reflexivity. Qed.

Lemma returning_prefix (r : res cell) (h : heap) : h `prefix_of` (returning r h).2.
Proof.
  unfold returning. apply hbind_prefix; [apply hlift_prefix|]. intros c h1.
  apply hbind_prefix; [apply hnew_prefix|]. intros p h2. apply hret_prefix.
Qed.

Lemma read_self_same {B : ShadowDecTree3} (o : instance B) (h : heap) :
  (read_self o h).2 = h.
Proof.
  unfold read_self, hbind, read_booster, read_table, read_array.
  repeat (match goal with
          | |- context [?h' !! ?r] => destruct (h' !! r) as [[]|]
          end; simpl; try reflexivity).
Qed.

Lemma hmapM_prefix {A B : Type} (f : A → hres B) (l : list A) (h : heap) :
  (∀ a h1, h1 `prefix_of` (f a h1).2) →
  h `prefix_of` (hmapM f l h).2.
Proof.
  intros Hf. revert h. induction l as [|a l IH]; intros h; simpl; [reflexivity|].
  apply hbind_prefix; [apply Hf|]. intros y h1.
  apply hbind_prefix; [apply IH|]. intros ys h2. apply hret_prefix.
Qed.

Lemma get_value_prefix {B : ShadowDecTree3} (o : instance B) (id : Z) (h : heap) :
  base_allocates B → h `prefix_of` (get_value o id h).2.
Proof.
  intros [Hnode _]. unfold get_value.
  apply hbind_prefix; [apply hmapM_prefix, Hnode|]. intros nv h1.
  apply hbind_prefix; [apply hlift_prefix|]. intros first h2.
  apply hbind_prefix; [apply hlift_prefix|]. intros a h3.
  apply hbind_prefix; [apply hlift_prefix|]. intros b h4. apply hret_prefix.
Qed.

(** A call only adds objects to the heap. *)
Lemma perform_prefix {B : ShadowDecTree3} (c : call) (o : instance B) (h : heap) :
  base_allocates B → h `prefix_of` (perform c o h).2.
Proof.
  intros HB. unfold perform. apply hbind_prefix.
  { rewrite read_self_same. reflexivity. }
  intros self h1.
  destruct c; try apply returning_prefix; try apply hlift_prefix;
    try apply hret_prefix.
  - apply hbind_prefix; [|intros; apply hret_prefix].
    unfold is_fit. cbv beta. match goal with |- context [match ?x with _ => _ end] => destruct x as [[]|] end; reflexivity.
  - apply hbind_prefix; [|intros; apply hret_prefix].
    apply get_value_prefix, HB.
Qed.

Lemma returning_ref (r : res cell) (h h' : heap) (a : answer) :
  returning r h = (Ok a, h') →
  ∃ c, r = Ok c ∧ a = ARef (length h) ∧ h' = h ++ [c].
Proof.
  unfold returning, hbind, hlift, hnew, hret. destruct r as [c| |]; try discriminate.
  intros [= <- <-]. eauto.
Qed.


(** An address a call hands back is that of a new object. *)
Lemma perform_ref {B : ShadowDecTree3} (c : call) (o : instance B) (h h' : heap)
    (p : addr) :
  perform c o h = (Ok (ARef p), h') → p = length h ∧ ∃ c', h' = h ++ [c'].
Proof.
  unfold perform. intros H. apply hbind_Ok in H as (self & h1 & Hself & H).
  assert (h1 = h) as ->.
  { pose proof (read_self_same o h) as Hs. rewrite Hself in Hs. exact Hs. }
  destruct c;
    try (apply returning_ref in H as (c' & _ & [= ->] & ->); eauto; fail);
    try (unfold hlift, res_map, res_bind in H;
         match type of H with
         | (match ?r with _ => _ end, _) = _ => destruct r; discriminate H
         | _ => discriminate H
         end).
  - apply hbind_Ok in H as (b & h2 & _ & H). discriminate H.
  - apply hbind_Ok in H as (b & h2 & _ & H). discriminate H.
Qed.

Lemma read_booster_Ok (r : addr) (h h' : heap) (b : Booster) :
  read_booster r h = (Ok b, h') ↔ h !! r = Some (BoosterObj b) ∧ h' = h.
Proof.
  unfold read_booster. split.
  - destruct (h !! r) as [[]|]; try discriminate. intros [= <- <-]. auto.
  - intros [-> ->]. reflexivity.
Qed.

Lemma hnew_Ok (c : cell) (h h' : heap) (p : addr) :
  hnew c h = (Ok p, h') ↔ p = length h ∧ h' = h ++ [c].
Proof. unfold hnew. split; [intros [= <- <-]; auto|intros [-> ->]; reflexivity]. Qed.

Lemma hlift_Ok {A : Type} (r : res A) (h h' : heap) (a : A) :
  hlift r h = (Ok a, h') ↔ r = Ok a ∧ h' = h.
Proof. unfold hlift. split; [intros [= <- <-]; auto|intros [-> ->]; reflexivity]. Qed.

(** The constructor, step by step: what it leaves in the heap. *)
Lemma new_XGBDTree_kept (B : ShadowDecTree3) (rb : addr) (idx : Z) (x : XData)
    (y : list Z) (h0 h1 : heap) (o : instance B) :
  base_allocates B →
  new_XGBDTree B rb idx x y h0 = (Ok o, h1) →
  ∃ b self,
    h0 !! rb = Some (BoosterObj b)
    ∧ __init__ b idx x = Ok self
    ∧ ref_booster (own o) = rb
    ∧ attr_tree_index (own o) = idx
    ∧ attr_x_data o = x
    ∧ attr_y_data o = y
    ∧ kept o self (world_after_init h0 h1).
Proof.
  intros [_ Hsuper] H. unfold new_XGBDTree in H.
  apply hbind_Ok in H as (b & h & Hb & H). apply read_booster_Ok in Hb as [Hb ->].
  apply hbind_Ok in H as (rdf & h & Hdf & H). apply hnew_Ok in Hdf as [-> ->].
  apply hbind_Ok in H as (cl & h & Hcl & H). apply hlift_Ok in Hcl as [Hcl ->].
  apply hbind_Ok in H as (rl & h & Hrl & H). apply hnew_Ok in Hrl as [-> ->].
  apply hbind_Ok in H as (cr & h & Hcr & H). apply hlift_Ok in Hcr as [Hcr ->].
  apply hbind_Ok in H as (rr & h & Hrr & H). apply hnew_Ok in Hrr as [-> ->].
  apply hbind_Ok in H as (nodes & h & Hnodes & H).
  injection H as <- <-.
  match type of Hnodes with super_init B ?a x y ?h3 = _ =>
    pose proof (Hsuper a x y h3) as [k Hk] end.
  rewrite Hnodes in Hk. simpl in Hk. subst h.
  exists b, {| booster := b; tree_index := idx; x_data := x;
               tree_to_dataframe := _get_tree_dataframe b idx;
               children_left := cl; children_right := cr |}.
  split; [exact Hb|]. split; [unfold __init__; rewrite Hcl, Hcr; reflexivity|].
  do 4 (split; [reflexivity|]).
  pose proof (lookup_lt_Some _ _ _ Hb) as Hrb.
  unfold kept, world_after_init. cbn [w_heap w_held own ref_booster
    ref_tree_to_dataframe ref_children_left ref_children_right
    tree_to_dataframe children_left children_right].
  rewrite !length_app. cbn [length]. rewrite <- !(assoc_L (++)).
  split; [exists b; rewrite lookup_app_l by exact Hrb; exact Hb|].
  split.
  { rewrite lookup_app_r by lia. replace (length h0 - length h0)%nat with 0%nat by lia.
    reflexivity. }
  split.
  { rewrite lookup_app_r by lia.
    replace (length h0 + 1 - length h0)%nat with 1%nat by lia. reflexivity. }
  split.
  { rewrite lookup_app_r by lia.
    replace (length h0 + 1 + 1 - length h0)%nat with 2%nat by lia. reflexivity. }
  rewrite !elem_of_seq.
  split; [lia|]. split; [lia|]. split; [lia|].
  intros r Hr. apply elem_of_seq in Hr. rewrite ?length_app. simpl. lia.
Qed.

Lemma kept_read_self {B : ShadowDecTree3} (o : instance B) (self : XGBDTree)
    (w : world) :
  kept o self w →
  ∃ b, read_self o (w_heap w)
       = (Ok {| booster := b; tree_index := attr_tree_index (own o);
                x_data := attr_x_data o;
                tree_to_dataframe := tree_to_dataframe self;
                children_left := children_left self;
                children_right := children_right self |}, w_heap w).
Proof.
  intros ((b & Hb) & Hdf & Hl & Hr & _). exists b.
  unfold read_self, hbind, read_booster, read_table, read_array.
  rewrite Hb, Hdf, Hl, Hr. reflexivity.
Qed.

(** No step of the code around the instance reaches what it keeps. *)
Lemma caller_step_kept {B : ShadowDecTree3} (o : instance B) (self : XGBDTree)
    (a : action) (w w' : world) :
  base_allocates B →
  kept o self w → caller_step o a w = Some w' → kept o self w'.
Proof.
  intros HB Hkept Hstep.
  pose proof Hkept as ((b & Hb) & Hdf & Hl & Hr & Hndf & Hnl & Hnr & Hheld).
  destruct a as [c|c|r c]; simpl in Hstep.
  - injection Hstep as <-. unfold kept. cbn [w_heap w_held].
    destruct (perform_prefix c o (w_heap w) HB) as [k Hk].
    destruct (perform c o (w_heap w)) as [out h'] eqn:Hout. simpl in Hk. subst h'.
    cbn [fst snd].
    rewrite !lookup_app_l by (eapply lookup_lt_Some; eassumption).
    split; [eauto|]. do 3 (split; [assumption|]).
    assert (Hold : ∀ r, r ∈ w_held w → (r < length (w_heap w ++ k))%nat).
    { intros r Hin. rewrite length_app. specialize (Hheld r Hin). lia. }
    destruct out as [[p| | | | |]| |]; try (repeat split; assumption).
    apply perform_ref in Hout as [-> [c' Hc']].
    apply app_inv_head in Hc'. subst k.
    apply lookup_lt_Some in Hdf, Hl, Hr.
    rewrite !not_elem_of_cons. repeat split; try assumption; try lia.
    intros r [->|Hin]%elem_of_cons; [rewrite length_app; simpl; lia|auto].
  - injection Hstep as <-. unfold kept. cbn [w_heap w_held].
    rewrite !lookup_app_l by (eapply lookup_lt_Some; eassumption).
    apply lookup_lt_Some in Hdf as Hdf', Hl as Hl', Hr as Hr'.
    rewrite !not_elem_of_cons. split; [eauto|]. repeat split; try assumption; try lia.
    intros r' [->|Hin]%elem_of_cons; rewrite length_app; simpl;
      [lia|specialize (Hheld r' Hin); lia].
  - destruct (w_heap w !! r) as [c0|] eqn:Hc0; [|discriminate].
    destruct (bool_decide (r ∈ w_held w)) eqn:Hin; [|discriminate].
    destruct (same_kind c0 c) eqn:Hkind; [|discriminate].
    injection Hstep as <-. apply bool_decide_eq_true in Hin.
    unfold kept. cbn [w_heap w_held]. rewrite length_insert.
    rewrite (list_lookup_insert_ne _ r (ref_tree_to_dataframe (own o)))
      by (intros ->; contradiction).
    rewrite (list_lookup_insert_ne _ r (ref_children_left (own o)))
      by (intros ->; contradiction).
    rewrite (list_lookup_insert_ne _ r (ref_children_right (own o)))
      by (intros ->; contradiction).
    split; [|repeat split; assumption].
    destruct (decide (r = ref_booster (own o))) as [->|Hne].
    + rewrite Hb in Hc0. injection Hc0 as <-.
      destruct c; try discriminate. eexists.
      apply list_lookup_insert_eq. eapply lookup_lt_Some, Hb.
    + exists b. rewrite list_lookup_insert_ne by exact Hne. exact Hb.
Qed.

Lemma caller_run_kept {B : ShadowDecTree3} (o : instance B) (self : XGBDTree)
    (trace : list action) (w w' : world) :
  base_allocates B →
  kept o self w → caller_run o trace w = Some w' → kept o self w'.
Proof.
  intros HB. revert w. induction trace as [|a trace IH]; intros w Hkept; simpl.
  - intros [= <-]. exact Hkept.
  - destruct (caller_step o a w) as [w1|] eqn:Hstep; [|discriminate].
    apply IH. eapply caller_step_kept; eassumption.
Qed.

(** C9. The constructor computes the two child arrays from the booster
    it is given and keeps them, with the node table, at addresses of
    their own. Whatever the code around the instance does afterwards
    (calls of any methods with any arguments, objects of its own,
    changes in place of any object it has the address of, the booster
    and the arrays earlier calls handed back among them), the instance
    still keeps the table and the arrays as the constructor computed
    them, nothing else has their addresses, and [get_children_left]
    (respectively [get_children_right]) returns a new array equal to the
    left (right) array computed at construction. The base class is taken
    to create objects only. *)
Theorem children_arrays_stable (B : ShadowDecTree3) (rb : addr) (idx : Z)
    (x : XData) (y : list Z) (h0 h1 : heap) (o : instance B)
    (trace : list action) (w : world) :
  base_allocates B →
  new_XGBDTree B rb idx x y h0 = (Ok o, h1) →
  caller_run o trace (world_after_init h0 h1) = Some w →
  ∃ (b : Booster) (self : XGBDTree),
    h0 !! rb = Some (BoosterObj b)
    ∧ __init__ b idx x = Ok self
    ∧ h1 !! ref_children_left (own o) = Some (NdArray (children_left self))
    ∧ h1 !! ref_children_right (own o) = Some (NdArray (children_right self))
    ∧ kept o self w
    ∧ perform Call_get_children_left o (w_heap w)
      = (Ok (ARef (length (w_heap w))),
         w_heap w ++ [NdArray (children_left self)])
    ∧ perform Call_get_children_right o (w_heap w)
      = (Ok (ARef (length (w_heap w))),
         w_heap w ++ [NdArray (children_right self)]).
Proof.
  intros HB Hnew Hrun.
  destruct (new_XGBDTree_kept B rb idx x y h0 h1 o HB Hnew)
    as (b & self & Hb & Hinit & _ & _ & _ & _ & Hkept0).
  exists b, self. split; [exact Hb|]. split; [exact Hinit|].
  pose proof Hkept0 as (_ & _ & Hl0 & Hr0 & _).
  split; [exact Hl0|]. split; [exact Hr0|].
  pose proof (caller_run_kept o self trace _ w HB Hkept0 Hrun) as Hkept.
  split; [exact Hkept|].
  destruct (constructed_inv self) as (_ & Hcl & Hcr); [exists b, idx, x; exact Hinit|].
  destruct (kept_read_self o self w Hkept) as (b' & Hread).
  unfold perform, hbind. rewrite Hread.
  unfold get_children_left, get_children_right. cbn [tree_to_dataframe].
  rewrite Hcl, Hcr. split; reflexivity.
Qed.

Lemma example_base_allocates : base_allocates example_base.
Proof. split; intros; simpl; apply prefix_app_r; reflexivity. Qed.

Lemma children_arrays_stable_witness :
  ∃ o h1 w,
    new_XGBDTree example_base 0 0 [] []
      [BoosterObj (example_booster "binary:logistic")] = (Ok o, h1)
    ∧ caller_run o example_trace
        (world_after_init [BoosterObj (example_booster "binary:logistic")] h1)
      = Some w
    ∧ w_heap w !! 0%nat = Some (BoosterObj cyclic_booster)
    ∧ w_heap w !! 5%nat = Some (NdArray [7; 7; 7])
    ∧ ∃ (b : Booster) (self : XGBDTree),
        [BoosterObj (example_booster "binary:logistic")] !! 0%nat
        = Some (BoosterObj b)
        ∧ __init__ b 0 [] = Ok self
        ∧ h1 !! ref_children_left (own o) = Some (NdArray (children_left self))
        ∧ h1 !! ref_children_right (own o) = Some (NdArray (children_right self))
        ∧ kept o self w
        ∧ perform Call_get_children_left o (w_heap w)
          = (Ok (ARef (length (w_heap w))),
             w_heap w ++ [NdArray (children_left self)])
        ∧ perform Call_get_children_right o (w_heap w)
          = (Ok (ARef (length (w_heap w))),
             w_heap w ++ [NdArray (children_right self)]).
Proof.
  eexists _, _, _. split; [vm_compute; reflexivity|].
  split; [vm_compute; reflexivity|].
  split; [reflexivity|]. split; [reflexivity|].
  apply (children_arrays_stable example_base 0 0 [] []
           [BoosterObj (example_booster "binary:logistic")] _ _ example_trace _).
  - exact example_base_allocates.
  - vm_compute; reflexivity.
  - vm_compute; reflexivity.
Defined.

(** ** Recording paths in the sample map *)

Lemma record_path_lookup (path : list Z) (m : gmap Z (list nat)) (i : nat) (k : Z) :
  record_path m i path !!! k = m !!! k ++ replicate (count_occ Z.eq_dec path k) i.
Proof.
  revert m. induction path as [|a path IH]; intros m.
  - simpl. rewrite app_nil_r. reflexivity.
  - cbn [record_path count_occ]. rewrite IH.
    destruct (Z.eq_dec a k) as [->|Hne].
    + rewrite lookup_total_insert_eq. rewrite <- app_assoc. reflexivity.
    + rewrite lookup_total_insert_ne by exact Hne. reflexivity.
Qed.

Lemma routed_to_cons (path : list Z) (paths : list (list Z)) (first : nat) (k : Z) :
  routed_to (path :: paths) first k
  = replicate (count_occ Z.eq_dec path k) first ++ routed_to paths (S first) k.
Proof.
  unfold routed_to. rewrite imap_cons. cbn [concat].
  replace (first + 0)%nat with first by lia. f_equal. f_equal.
  apply imap_ext. intros j p _. simpl. f_equal. lia.
Qed.

Lemma routed_to_elem (paths : list (list Z)) (first : nat) (k : Z) (i : nat) :
  i ∈ routed_to paths first k
  ↔ ∃ (j : nat) (path : list Z),
      i = (first + j)%nat ∧ paths !! j = Some path ∧ k ∈ path.
Proof.
  revert first. induction paths as [|p paths IH]; intros first.
  - split.
    + intros H. apply elem_of_nil in H. contradiction.
    + intros (j & path & _ & H & _). discriminate H.
  - rewrite routed_to_cons, elem_of_app, elem_of_replicate, IH. split.
    + intros [[-> Hcount]|(j & path & -> & Hj & Hk)].
      * exists 0%nat, p. split; [lia|]. split; [reflexivity|].
        apply list_elem_of_In, (count_occ_In Z.eq_dec). lia.
      * exists (S j), path. split; [lia|]. auto.
    + intros ([|j] & path & -> & Hj & Hk).
      * left. injection Hj as ->. split; [lia|].
        apply list_elem_of_In, (count_occ_In Z.eq_dec) in Hk. lia.
      * right. exists j, path. split; [lia|]. auto.
Qed.

Lemma routed_to_once (paths : list (list Z)) (first : nat) (k : Z) :
  Forall (λ path, count_occ Z.eq_dec path k = 1%nat) paths →
  routed_to paths first k = seq first (length paths).
Proof.
  intros H. revert first. induction H as [|p paths Hp _ IH]; intros first.
  - reflexivity.
  - rewrite routed_to_cons, Hp, IH. reflexivity.
Qed.

Lemma route_samples_spec (self : XGBDTree) (fuel : nat) (leaves : list Z)
    (paths : list (list Z)) :
  Forall2 (λ leaf path, _get_leaf_prediction_path self fuel leaf = Ok path)
          leaves paths →
  ∀ (first : nat) (m : gmap Z (list nat)),
    ∃ m', route_samples self fuel first leaves m = Ok m'
          ∧ ∀ k, m' !!! k = m !!! k ++ routed_to paths first k.
Proof.
  induction 1 as [|leaf path leaves paths Hpath _ IH]; intros first m.
  - exists m. split; [reflexivity|]. intros k. unfold routed_to. simpl.
    rewrite app_nil_r. reflexivity.
  - cbn [route_samples]. rewrite Hpath. simpl.
    destruct (IH (S first) (record_path m first path)) as (m' & Hm' & Hk).
    exists m'. split; [exact Hm'|]. intros k.
    rewrite Hk, record_path_lookup, routed_to_cons, app_assoc. reflexivity.
Qed.

Lemma np_getitem_not_OutOfFuel {A : Type} (a : list A) (i : Z) :
  np_getitem a i ≠ OutOfFuel.
Proof.
  unfold np_getitem, py_list_get.
  repeat match goal with
         | |- context [if ?c then _ else _] => destruct c
         | |- context [match ?l !! ?i with _ => _ end] => destruct (l !! i)
         end; discriminate.
Qed.

Lemma np_column_not_OutOfFuel (m : ndarray2) (k : Z) : np_column m k ≠ OutOfFuel.
Proof.
  unfold np_column. destruct (_ && _); [|discriminate].
  induction (mrows m) as [|r rows IH]; simpl; [discriminate|].
  pose proof (np_getitem_not_OutOfFuel r k).
  destruct (np_getitem r k); simpl; try congruence.
  destruct (res_mapM _ rows); simpl; congruence.
Qed.

(** ** A tree index without rows *)

Lemma walk_no_children (fuel : nat) (node : Z) (st : walk_state) :
  ∃ st', walk [] [] (S fuel) node st = Ok st'
         ∧ prediction_path st' = prediction_path st.
Proof.
  simpl. destruct (negb (node =? ROOT_NODE)); simpl; eexists; split; reflexivity.
Qed.

Lemma init_absent (b : Booster) (idx : Z) (x : XData) :
  _get_tree_dataframe b idx = [] →
  __init__ b idx x
  = Ok {| booster := b; tree_index := idx; x_data := x; tree_to_dataframe := [];
          children_left := []; children_right := [] |}.
Proof. intros H. unfold __init__. rewrite H. reflexivity. Qed.

(** C7, as the code has it. When the tree index has no rows in the node
    table, the assignments of [__init__] raise nothing and leave an
    empty table and two empty child arrays, and [nnodes] is 0.
    [get_node_samples] then follows the leaf-assignment matrix: if the
    index is no column of it, the [IndexError] of the selection comes
    out; if it is, the call returns a map listing each sample under its
    own leaf id and nowhere else, empty exactly when there is no sample.
    An index outside the columns of the matrix is such a failing
    selection. *)
Theorem absent_tree_index_behaviour (b : Booster) (idx : Z) (x : XData) :
  _get_tree_dataframe b idx = [] →
  ∃ self, __init__ b idx x = Ok self
    ∧ tree_to_dataframe self = []
    ∧ children_left self = []
    ∧ children_right self = []
    ∧ nnodes self = 0%nat
    ∧ ∀ fuel : nat, (0 < fuel)%nat →
        (¬ (- Z.of_nat (ncols (predict_pred_leaf b x)) ≤ idx
            < Z.of_nat (ncols (predict_pred_leaf b x))) →
         get_node_samples self fuel = Raise IndexError)
        ∧
        match np_column (predict_pred_leaf b x) idx with
        | Ok leaves =>
            ∃ m, get_node_samples self fuel = Ok m
                 ∧ (∀ (i : nat) (node : Z), i ∈ m !!! node ↔ leaves !! i = Some node)
                 ∧ (m = ∅ ↔ leaves = [])
        | Raise e => get_node_samples self fuel = Raise e
        | OutOfFuel => False
        end.
Proof.
  intros Hdf. eexists. split; [apply init_absent, Hdf|].
  do 4 (split; [reflexivity|]). intros fuel Hfuel.
  unfold get_node_samples. simpl. split.
  { intros Hout. unfold np_column.
    replace (_ && _) with false; [reflexivity|].
    symmetry. apply andb_false_iff.
    rewrite Z.leb_gt, Z.ltb_ge. lia. }
  pose proof (np_column_not_OutOfFuel (predict_pred_leaf b x) idx) as Hnf.
  destruct (np_column (predict_pred_leaf b x) idx) as [leaves|e|];
    [|reflexivity|congruence]. simpl.
  match goal with |- context [route_samples ?s _ _ _ _] => set (self := s) end.
  assert (Hpaths : Forall2 (λ leaf path, _get_leaf_prediction_path self fuel leaf = Ok path)
                           leaves (map (λ leaf, [leaf]) leaves)).
  { apply Forall2_fmap_r, Forall_Forall2_diag, Forall_forall. intros leaf _.
    unfold _get_leaf_prediction_path, walk_from_leaf. simpl.
    destruct fuel as [|fuel]; [lia|].
    destruct (walk_no_children fuel leaf {| prediction_path := [leaf]; searches := 0 |})
      as (st' & -> & Hst'). simpl. rewrite Hst'. reflexivity. }
  destruct (route_samples_spec self fuel leaves _ Hpaths 0%nat ∅) as (m & Hm & Hk).
  exists m. split; [exact Hm|].
  assert (Hmem : ∀ (i : nat) (node : Z), i ∈ m !!! node ↔ leaves !! i = Some node).
  { intros i node. rewrite Hk, lookup_total_empty. simpl.
    rewrite routed_to_elem. split.
    - intros (j & path & -> & Hj & Hin). simpl.
      rewrite list_lookup_fmap in Hj.
      destruct (leaves !! j) as [leaf|]; [|discriminate]. simpl in Hj.
      injection Hj as <-. apply list_elem_of_singleton in Hin. congruence.
    - intros Hi. exists i, [node]. split; [reflexivity|].
      rewrite list_lookup_fmap, Hi. split; [reflexivity|].
      apply list_elem_of_singleton. reflexivity. }
  split; [exact Hmem|]. split.
  - intros ->. destruct leaves as [|leaf leaves]; [reflexivity|].
    exfalso. assert (H0 : 0%nat ∈ (∅ : gmap Z (list nat)) !!! leaf)
      by (apply Hmem; reflexivity).
    rewrite lookup_total_empty in H0. apply elem_of_nil in H0. exact H0.
  - intros ->. simpl in Hm. congruence.
Qed.

Lemma absent_tree_index_witness :
  ∃ self, __init__ (example_booster "binary:logistic") 1 [] = Ok self
    ∧ tree_to_dataframe self = []
    ∧ children_left self = []
    ∧ children_right self = []
    ∧ nnodes self = 0%nat
    ∧ ∀ fuel : nat, (0 < fuel)%nat →
        (¬ (- Z.of_nat (ncols (predict_pred_leaf (example_booster "binary:logistic") []))
            ≤ 1 < Z.of_nat (ncols (predict_pred_leaf (example_booster "binary:logistic") []))) →
         get_node_samples self fuel = Raise IndexError)
        ∧
        match np_column (predict_pred_leaf (example_booster "binary:logistic") []) 1 with
        | Ok leaves =>
            ∃ m, get_node_samples self fuel = Ok m
                 ∧ (∀ (i : nat) (node : Z), i ∈ m !!! node ↔ leaves !! i = Some node)
                 ∧ (m = ∅ ↔ leaves = [])
        | Raise e => get_node_samples self fuel = Raise e
        | OutOfFuel => False
        end.
Proof.
  apply (absent_tree_index_behaviour (example_booster "binary:logistic") 1 []).
  reflexivity.
Defined.

(** C7, as stated, fails. The example model has one tree and three
    samples. Tree index 1 has no rows, [nnodes] is 0, and
    [get_node_samples] raises [IndexError]; tree index -1 has no rows
    either, and [get_node_samples] returns a map that is not empty. *)
Lemma get_node_samples_absent_counterexample :
  _get_tree_dataframe (example_booster "binary:logistic") 1 = []
  ∧ __init__ (example_booster "binary:logistic") 1 [] = Ok (absent_adapter 1)
  ∧ nnodes (absent_adapter 1) = 0%nat
  ∧ (∀ fuel, get_node_samples (absent_adapter 1) fuel = Raise IndexError)
  ∧ _get_tree_dataframe (example_booster "binary:logistic") (-1) = []
  ∧ __init__ (example_booster "binary:logistic") (-1) [] = Ok (absent_adapter (-1))
  ∧ res_map (λ m, (m !!! 1, m !!! 2, size m)) (get_node_samples (absent_adapter (-1)) 1)
    = Ok ([0; 2]%nat, [1]%nat, 2%nat).
Proof.
  repeat split; reflexivity.
Qed.

(** ** The upward walk *)

Lemma first_index_Some (a : list Z) (x : Z) (p : nat) :
  first_index a x = Some p →
  a !! p = Some x ∧ ∀ j : nat, (j < p)%nat → a !! j ≠ Some x.
Proof.
  revert p. induction a as [|y a IH]; intros p; simpl; [discriminate|].
  destruct (Z.eqb_spec y x) as [->|Hne].
  - intros [= <-]. split; [reflexivity|]. intros j Hj. lia.
  - destruct (first_index a x) as [q|]; simpl; [|discriminate].
    intros [= <-]. destruct (IH q eq_refl) as [Hq Hfirst]. split; [exact Hq|].
    intros [|j] Hj; simpl; [congruence|]. apply Hfirst. lia.
Qed.

Lemma first_index_None (a : list Z) (x : Z) :
  first_index a x = None ↔ count_occ Z.eq_dec a x = 0%nat.
Proof.
  induction a as [|y a IH]; simpl; [tauto|].
  destruct (Z.eqb_spec y x) as [->|Hne].
  - destruct (Z.eq_dec x x); [|congruence]. split; discriminate.
  - destruct (Z.eq_dec y x); [congruence|]. rewrite <- IH.
    destruct (first_index a x); simpl; split; congruence.
Qed.

Lemma first_index_parent_l (cl cr : list Z) (x : Z) (p : nat) :
  first_index cl x = Some p →
  parent_rel cl cr (Z.of_nat p) x ∧ (p < length cl)%nat.
Proof.
  intros H. apply first_index_Some in H as [H _]. split.
  - exists p. auto.
  - eapply lookup_lt_Some, H.
Qed.

Lemma first_index_parent_r (cl cr : list Z) (x : Z) (p : nat) :
  first_index cr x = Some p →
  parent_rel cl cr (Z.of_nat p) x ∧ (p < length cr)%nat.
Proof.
  intros H. apply first_index_Some in H as [H _]. split.
  - exists p. auto.
  - eapply lookup_lt_Some, H.
Qed.

Lemma bounded_NoDup_length (l : list nat) (n : nat) :
  NoDup l → (∀ x, x ∈ l → (x < n)%nat) → (length l ≤ n)%nat.
Proof.
  intros Hnd Hlt.
  replace n with (length (seq 0 n)) at 1 by apply length_seq.
  apply submseteq_length, NoDup_submseteq; [exact Hnd|].
  intros x Hx. apply elem_of_seq. specialize (Hlt x Hx). lia.
Qed.

(** More fuel does not change a walk that came back. *)
Lemma walk_fuel_mono (cl cr : list Z) (fuel fuel' : nat) (x : Z) (st st' : walk_state) :
  (fuel ≤ fuel')%nat →
  walk cl cr fuel x st = Ok st' → walk cl cr fuel' x st = Ok st'.
Proof.
  revert fuel' x st st'. induction fuel as [|fuel IH]; intros fuel' x st st' Hle;
    [discriminate|].
  destruct fuel' as [|fuel']; [lia|]. assert (Hle' : (fuel ≤ fuel')%nat) by lia.
  cbn [walk]. destruct (negb (x =? ROOT_NODE)); [|auto].
  intros H. apply res_bind_Ok in H as (st1 & H1 & H2).
  assert (Hleft :
    match first_index cl x with
    | Some parent_node =>
        walk cl cr fuel' (Z.of_nat parent_node)
             (appended (scanned st) (Z.of_nat parent_node))
    | None => Ok (scanned st)
    end = Ok st1).
  { destruct (first_index cl x); [apply (IH _ _ _ _ Hle' H1)|exact H1]. }
  rewrite Hleft. simpl.
  destruct (first_index cr x); [apply (IH _ _ _ _ Hle' H2)|exact H2].
Qed.

Section Walk.
Variables cl cr : list Z.
Variable n : nat.
Hypothesis cl_bound : (length cl ≤ n)%nat.
Hypothesis cr_bound : (length cr ≤ n)%nat.
Hypothesis no_cycle : acyclic cl cr.

(** [seen] holds the nodes below [p] on the current chain of calls:
    they are all different, so the chain cannot be longer than [n]. *)
Lemma walk_returns_from_index (fuel : nat) :
  ∀ (p : nat) (seen : list nat) (st : walk_state),
    (p < n)%nat →
    NoDup seen →
    (∀ s, s ∈ seen →
          (s < n)%nat ∧ tc (parent_rel cl cr) (Z.of_nat p) (Z.of_nat s)) →
    (n ≤ fuel + length seen)%nat →
    ∃ st', walk cl cr fuel (Z.of_nat p) st = Ok st'.
Proof.
  induction fuel as [|fuel IH]; intros p seen st Hp Hnd Hseen Hfuel.
  - exfalso.
    assert (Hnew : p ∉ seen).
    { intros Hin. apply (no_cycle (Z.of_nat p)), Hseen, Hin. }
    assert (Hlen : (length (p :: seen) ≤ n)%nat).
    { apply bounded_NoDup_length; [apply NoDup_cons; auto|].
      intros y Hy. apply elem_of_cons in Hy as [->|Hy]; [exact Hp|].
      apply Hseen, Hy. }
    simpl in Hlen. lia.
  - assert (Hup : ∀ (q : nat) (st0 : walk_state),
               (q < n)%nat → parent_rel cl cr (Z.of_nat q) (Z.of_nat p) →
               ∃ st', walk cl cr fuel (Z.of_nat q) st0 = Ok st').
    { intros q st0 Hq Hpar. apply (IH q (p :: seen)); [exact Hq| | |simpl; lia].
      - apply NoDup_cons. split; [|exact Hnd].
        intros Hin. apply (no_cycle (Z.of_nat p)), Hseen, Hin.
      - intros s Hs. apply elem_of_cons in Hs as [->|Hs].
        + split; [exact Hp|]. apply tc_once, Hpar.
        + split; [apply Hseen, Hs|].
          eapply tc_l; [exact Hpar|]. apply Hseen, Hs. }
    cbn [walk]. destruct (negb (Z.of_nat p =? ROOT_NODE)); [|eauto].
    assert (Hleft : ∃ st1,
      match first_index cl (Z.of_nat p) with
      | Some parent_node =>
          walk cl cr fuel (Z.of_nat parent_node)
               (appended (scanned st) (Z.of_nat parent_node))
      | None => Ok (scanned st)
      end = Ok st1).
    { destruct (first_index cl (Z.of_nat p)) as [q|] eqn:Hq; [|eauto].
      apply (first_index_parent_l cl cr) in Hq as [Hpar Hlt].
      apply Hup; [lia|exact Hpar]. }
    destruct Hleft as (st1 & ->). simpl.
    destruct (first_index cr (Z.of_nat p)) as [q|] eqn:Hq; [|eauto].
    apply (first_index_parent_r cl cr) in Hq as [Hpar Hlt].
    apply Hup; [lia|exact Hpar].
Qed.

(** The walk comes back from any starting node, a valid id or not,
    within [n + 1] nested calls. *)
Lemma walk_returns (fuel : nat) (x : Z) (st : walk_state) :
  (n < fuel)%nat → ∃ st', walk cl cr fuel x st = Ok st'.
Proof.
  intros Hfuel. destruct fuel as [|fuel]; [lia|].
  assert (Hup : ∀ (q : nat) (st0 : walk_state),
             (q < n)%nat → ∃ st', walk cl cr fuel (Z.of_nat q) st0 = Ok st').
  { intros q st0 Hq. apply (walk_returns_from_index fuel q []); auto.
    - apply NoDup_nil_2.
    - intros s Hs. apply elem_of_nil in Hs. contradiction.
    - simpl. lia. }
  cbn [walk]. destruct (negb (x =? ROOT_NODE)); [|eauto].
  assert (Hleft : ∃ st1,
    match first_index cl x with
    | Some parent_node =>
        walk cl cr fuel (Z.of_nat parent_node)
             (appended (scanned st) (Z.of_nat parent_node))
    | None => Ok (scanned st)
    end = Ok st1).
  { destruct (first_index cl x) as [q|] eqn:Hq; [|eauto].
    apply (first_index_parent_l cl cr) in Hq as [_ Hlt]. apply Hup. lia. }
  destruct Hleft as (st1 & ->). simpl.
  destruct (first_index cr x) as [q|] eqn:Hq; [|eauto].
  apply (first_index_parent_r cl cr) in Hq as [_ Hlt]. apply Hup. lia.
Qed.
End Walk.

Section WalkInTree.
Variables cl cr : list Z.
Hypothesis tree : well_formed_tree cl cr.

(** In a tree the walk from a valid node appends its ancestors, and the
    root is among them exactly once (not at all when starting there). *)
Lemma walk_reaches_root_once (fuel : nat) :
  ∀ (p : nat) (st st' : walk_state),
    (p < length cl)%nat →
    walk cl cr fuel (Z.of_nat p) st = Ok st' →
    ∃ chain, prediction_path st' = prediction_path st ++ chain
             ∧ count_occ Z.eq_dec chain ROOT_NODE = (if decide (p = 0%nat) then 0 else 1)%nat.
Proof.
  pose proof (wf_same_length _ _ tree) as Hlen.
  induction fuel as [|fuel IH]; intros p st st' Hp; [discriminate|].
  cbn [walk]. destruct (decide (p = 0%nat)) as [->|Hne].
  - simpl. intros [= <-]. exists []. rewrite app_nil_r. auto.
  - replace (negb (Z.of_nat p =? ROOT_NODE)) with true
      by (symmetry; apply negb_true_iff, Z.eqb_neq; unfold ROOT_NODE; lia).
    pose proof (wf_one_parent _ _ tree p ltac:(lia)) as Hone.
    unfold child_refs in Hone.
    assert (Hstep : ∀ (q : nat) (st0 st1 : walk_state),
               (q < length cl)%nat →
               walk cl cr fuel (Z.of_nat q) (appended st0 (Z.of_nat q)) = Ok st1 →
               ∃ chain, prediction_path st1 = prediction_path st0 ++ chain
                        ∧ count_occ Z.eq_dec chain ROOT_NODE = 1%nat).
    { intros q st0 st1 Hq Hw.
      destruct (IH q _ _ Hq Hw) as (chain & Hpath & Hcount).
      exists (Z.of_nat q :: chain). split.
      - rewrite Hpath. simpl. rewrite <- app_assoc. reflexivity.
      - cbn [count_occ]. unfold ROOT_NODE in *.
        destruct (decide (q = 0%nat)) as [->|Hq0].
        + simpl. rewrite Hcount. reflexivity.
        + destruct (Z.eq_dec (Z.of_nat q) 0); [lia|exact Hcount]. }
    destruct (first_index cl (Z.of_nat p)) as [ql|] eqn:Hl;
      destruct (first_index cr (Z.of_nat p)) as [qr|] eqn:Hr.
    + exfalso.
      assert (count_occ Z.eq_dec cl (Z.of_nat p) ≠ 0%nat)
        by (intros H0; apply first_index_None in H0; congruence).
      assert (count_occ Z.eq_dec cr (Z.of_nat p) ≠ 0%nat)
        by (intros H0; apply first_index_None in H0; congruence).
      lia.
    + intros H. apply res_bind_Ok in H as (st1 & H1 & [= <-]).
      apply first_index_parent_l with (cr := cr) in Hl as [_ Hql].
      apply (Hstep ql (scanned st) st1 Hql H1).
    + intros H. apply res_bind_Ok in H as (st1 & [= <-] & H2).
      apply first_index_parent_r with (cl := cl) in Hr as [_ Hqr].
      apply (Hstep qr (scanned (scanned st)) st' ltac:(lia) H2).
    + exfalso.
      apply first_index_None in Hl. apply first_index_None in Hr. lia.
Qed.

Lemma walk_returns_in_tree (fuel : nat) (x : Z) (st : walk_state) :
  (length cl < fuel)%nat → ∃ st', walk cl cr fuel x st = Ok st'.
Proof.
  pose proof (wf_same_length _ _ tree) as Hlen.
  apply (walk_returns cl cr (length cl)); [lia|lia|].
  exact (wf_acyclic _ _ tree).
Qed.
End WalkInTree.

Lemma increasing_acyclic (cl cr : list Z) :
  (∀ (i : nat) (c : Z),
     cl !! i = Some c ∨ cr !! i = Some c → 0 ≤ c → Z.of_nat i < c) →
  acyclic cl cr.
Proof.
  intros Hinc.
  assert (Hlt : ∀ x y, tc (parent_rel cl cr) x y → 0 ≤ x ∧ (0 ≤ y → x < y)).
  { induction 1 as [x y (i & -> & Hi)|x y z (i & -> & Hi) _ [Hy IH]].
    - split; [lia|]. intros Hy. apply (Hinc i y Hi Hy).
    - split; [lia|]. intros Hz. specialize (IH Hz).
      specialize (Hinc i y Hi Hy). lia. }
  intros x Hx. destruct (Hlt x x Hx) as [H0 Hxx]. specialize (Hxx H0). lia.
Qed.

Lemma example_well_formed : well_formed_tree [1; -1; -1] [2; -1; -1].
Proof.
  split.
  - reflexivity.
  - intros [|[|[|i]]] Hi; simpl in Hi; try lia; reflexivity.
  - apply increasing_acyclic.
    intros [|[|[|i]]] c [H|H] Hc; simpl in H;
      try discriminate; injection H as <-; lia.
Defined.

(** An array in which node 1 is its own left child: the walk from node 1
    never comes back, whatever the depth allowed. *)
Lemma walk_cycle_never_returns (fuel : nat) (st : walk_state) :
  walk [-1; 1] [-1; -1] fuel 1 st = OutOfFuel.
Proof.
  revert st. induction fuel as [|fuel IH]; intros st; [reflexivity|].
  cbn [walk]. simpl. rewrite IH. reflexivity.
Qed.

(** C10. On child-link arrays that form a tree rooted at node 0 the
    upward walk of [_get_leaf_prediction_path] comes back from every
    starting id, with one and the same path for every depth allowance
    above [nnodes]; started at the root it returns the path [[0]] and
    makes no parent search at all. *)
Theorem leaf_prediction_path_terminates (self : XGBDTree) (leaf : Z) :
  well_formed_tree (children_left self) (children_right self) →
  (∃ path, ∀ fuel : nat, (length (children_left self) < fuel)%nat →
                         _get_leaf_prediction_path self fuel leaf = Ok path)
  ∧ (leaf = ROOT_NODE →
     ∀ fuel : nat, (0 < fuel)%nat →
       walk_from_leaf self fuel leaf = Ok {| prediction_path := [0]; searches := 0 |}
       ∧ _get_leaf_prediction_path self fuel leaf = Ok [0]).
Proof.
  intros Htree. split.
  - destruct (walk_returns_in_tree _ _ Htree (S (length (children_left self))) leaf
                {| prediction_path := [leaf]; searches := 0 |}) as (st' & Hst'); [lia|].
    exists (prediction_path st'). intros fuel Hfuel.
    unfold _get_leaf_prediction_path, walk_from_leaf.
    assert (Hle : (S (length (children_left self)) ≤ fuel)%nat) by lia.
    rewrite (walk_fuel_mono _ _ _ fuel _ _ _ Hle Hst'). reflexivity.
  - intros -> fuel Hfuel. destruct fuel as [|fuel]; [lia|].
    unfold _get_leaf_prediction_path, walk_from_leaf. split; reflexivity.
Qed.

Lemma leaf_prediction_path_terminates_witness :
  (∃ path, ∀ fuel : nat, (length (children_left example_adapter) < fuel)%nat →
                         _get_leaf_prediction_path example_adapter fuel 0 = Ok path)
  ∧ (0 = ROOT_NODE →
     ∀ fuel : nat, (0 < fuel)%nat →
       walk_from_leaf example_adapter fuel 0
       = Ok {| prediction_path := [0]; searches := 0 |}
       ∧ _get_leaf_prediction_path example_adapter fuel 0 = Ok [0]).
Proof.
  apply (leaf_prediction_path_terminates example_adapter 0).
  simpl. exact example_well_formed.
Defined.

(** ** Sample routing in a tree *)

Lemma leaf_path_in_tree (self : XGBDTree) (fuel : nat) (leaf : Z) :
  well_formed_tree (children_left self) (children_right self) →
  0 ≤ leaf < Z.of_nat (length (children_left self)) →
  (length (children_left self) < fuel)%nat →
  ∃ path, _get_leaf_prediction_path self fuel leaf = Ok path
          ∧ leaf ∈ path
          ∧ count_occ Z.eq_dec path ROOT_NODE = 1%nat.
Proof.
  intros Htree Hleaf Hfuel.
  unfold _get_leaf_prediction_path, walk_from_leaf.
  destruct (walk_returns_in_tree _ _ Htree fuel leaf
              {| prediction_path := [leaf]; searches := 0 |} Hfuel) as (st' & Hst').
  rewrite Hst'. simpl. exists (prediction_path st'). split; [reflexivity|].
  assert (Hnat : leaf = Z.of_nat (Z.to_nat leaf)) by lia.
  rewrite Hnat in Hst' at 1.
  destruct (walk_reaches_root_once _ _ Htree fuel (Z.to_nat leaf) _ _ ltac:(lia) Hst')
    as (chain & Hpath & Hcount).
  simpl in Hpath. rewrite Hpath. split; [left|].
  cbn [count_occ]. rewrite Hcount. unfold ROOT_NODE.
  destruct (decide (Z.to_nat leaf = 0%nat)) as [H0|H0];
    destruct (Z.eq_dec leaf 0); try lia; reflexivity.
Qed.

Lemma Forall_exists_Forall2 {A B : Type} (P : A → B → Prop) (l : list A) :
  Forall (λ a, ∃ b, P a b) l → ∃ k, Forall2 P l k.
Proof.
  induction 1 as [|a l (b & Hb) _ (k & Hk)].
  - exists []. constructor.
  - exists (b :: k). constructor; assumption.
Qed.

(** C1. On child-link arrays that form a tree rooted at node 0, with the
    model assigning each of the [N] samples a leaf id of that tree,
    [get_node_samples] returns a map in which every sample is listed
    under its own leaf id and the root's list is exactly the samples
    [0 .. N-1]. *)
Theorem get_node_samples_exhaustive (self : XGBDTree) (leaves : list Z) (fuel : nat) :
  well_formed_tree (children_left self) (children_right self) →
  np_column (predict_pred_leaf (booster self) (x_data self)) (tree_index self)
  = Ok leaves →
  Forall (λ leaf, 0 ≤ leaf < Z.of_nat (length (children_left self))) leaves →
  (length (children_left self) < fuel)%nat →
  ∃ m, get_node_samples self fuel = Ok m
       ∧ (∀ (i : nat) (leaf : Z), leaves !! i = Some leaf → i ∈ m !!! leaf)
       ∧ m !!! ROOT_NODE = seq 0 (length leaves).
Proof.
  intros Htree Hcol Hleaves Hfuel.
  unfold get_node_samples. rewrite Hcol. simpl.
  assert (Hex : ∃ paths,
    Forall2 (λ leaf path, _get_leaf_prediction_path self fuel leaf = Ok path
                          ∧ leaf ∈ path
                          ∧ count_occ Z.eq_dec path ROOT_NODE = 1%nat) leaves paths).
  { apply Forall_exists_Forall2. eapply Forall_impl; [exact Hleaves|].
    intros leaf Hleaf. apply leaf_path_in_tree; assumption. }
  destruct Hex as (paths & Hpaths).
  destruct (route_samples_spec self fuel leaves paths) with (first := 0%nat)
    (m := (∅ : gmap Z (list nat))) as (m & Hm & Hk).
  { eapply Forall2_impl; [exact Hpaths|]. intros leaf path H. apply H. }
  exists m. split; [exact Hm|]. split.
  - intros i leaf Hi. rewrite Hk, lookup_total_empty. simpl.
    apply routed_to_elem.
    destruct (Forall2_lookup_l _ _ _ _ _ Hpaths Hi) as (path & Hpath & _ & Hin & _).
    exists i, path. auto.
  - rewrite Hk, lookup_total_empty. simpl.
    rewrite (Forall2_length _ _ _ Hpaths).
    apply routed_to_once.
    eapply Forall2_Forall_r; [exact Hpaths|].
    apply Forall_forall. intros leaf _ path H. apply H.
Qed.

Lemma get_node_samples_exhaustive_witness :
  ∃ m, get_node_samples example_adapter 4 = Ok m
       ∧ (∀ (i : nat) (leaf : Z), [1; 2; 1] !! i = Some leaf → i ∈ m !!! leaf)
       ∧ m !!! ROOT_NODE = seq 0 (length [1; 2; 1]).
Proof.
  apply (get_node_samples_exhaustive example_adapter [1; 2; 1] 4).
  - simpl. exact example_well_formed.
  - reflexivity.
  - simpl. repeat constructor; lia.
  - simpl. lia.
Defined.

(** ** Decoding child references *)

Lemma str_split_uint_sep (d : uint) (s : string) :
  str_split "-" (NilEmpty.string_of_uint d +:+ String "-" s)
  = NilEmpty.string_of_uint d :: str_split "-" s.
Proof.
  induction d as [|d IH|d IH|d IH|d IH|d IH|d IH|d IH|d IH|d IH|d IH];
    [reflexivity|..]; simpl; simpl in IH; rewrite IH; reflexivity.
Qed.

Lemma str_split_uint (d : uint) :
  str_split "-" (NilEmpty.string_of_uint d) = [NilEmpty.string_of_uint d].
Proof.
  induction d as [|d IH|d IH|d IH|d IH|d IH|d IH|d IH|d IH|d IH|d IH];
    [reflexivity|..]; simpl; rewrite IH; reflexivity.
Qed.

Lemma rstrip_uint (d : uint) :
  rstrip (NilEmpty.string_of_uint d) = NilEmpty.string_of_uint d.
Proof.
  induction d as [|d IH|d IH|d IH|d IH|d IH|d IH|d IH|d IH|d IH|d IH];
    [reflexivity|..]; cbn [NilEmpty.string_of_uint rstrip];
    rewrite IH; destruct (NilEmpty.string_of_uint d); reflexivity.
Qed.

Lemma int_digits_uint (d : uint) (acc : nat) :
  int_digits (Z.of_nat acc) true (NilEmpty.string_of_uint d)
  = Some (Z.of_nat (Nat.of_uint_acc d acc)).
Proof.
  revert acc.
  induction d as [|d IH|d IH|d IH|d IH|d IH|d IH|d IH|d IH|d IH|d IH];
    intros acc; [reflexivity|..];
    cbn [NilEmpty.string_of_uint int_digits Nat.of_uint_acc];
    match goal with
    | |- context [digit_of_ascii ?c] =>
        let v := eval vm_compute in (digit_of_ascii c) in
        change (digit_of_ascii c) with v
    end;
    cbv beta iota; rewrite <- IH; f_equal; rewrite Nat.tail_mul_spec; lia.
Qed.

Lemma int_of_str_uint (d : uint) :
  d ≠ Nil →
  int_of_str (NilEmpty.string_of_uint d) = Ok (Z.of_nat (Nat.of_uint d)).
Proof.
  intros Hd. unfold int_of_str, Nat.of_uint.
  destruct d as [|d|d|d|d|d|d|d|d|d|d]; [congruence|..];
    cbn [NilEmpty.string_of_uint lstrip];
    match goal with
    | |- context [is_space ?c] =>
        let v := eval vm_compute in (is_space c) in
        change (is_space c) with v
    end; cbv beta iota;
    match goal with
    | |- context [rstrip (String ?c (NilEmpty.string_of_uint d))] =>
        replace (rstrip (String c (NilEmpty.string_of_uint d)))
          with (String c (NilEmpty.string_of_uint d))
          by (cbn [rstrip]; rewrite rstrip_uint;
              destruct (NilEmpty.string_of_uint d); reflexivity)
    end;
    cbv beta iota; cbn [fst snd int_digits];
    match goal with
    | |- context [digit_of_ascii ?c] =>
        let v := eval vm_compute in (digit_of_ascii c) in
        change (digit_of_ascii c) with v
    end; cbv beta iota;
    match goal with
    | |- context [int_digits ?z true _] =>
        change z with (Z.of_nat (Z.to_nat z))
    end;
    rewrite int_digits_uint; reflexivity.
Qed.

Lemma int_of_str_str_of_nat (n : nat) : int_of_str (str_of_nat n) = Ok (Z.of_nat n).
Proof.
  unfold str_of_nat, NilZero.string_of_uint.
  rewrite <- (Unsigned.of_to n) at 2.
  destruct (Nat.to_uint n) eqn:Hd; [reflexivity|..];
    apply int_of_str_uint; discriminate.
Qed.

Lemma str_split_compound_id (tree node : nat) :
  str_split "-" (compound_id tree node) = [str_of_nat tree; str_of_nat node].
Proof.
  unfold compound_id, str_of_nat, NilZero.string_of_uint.
  assert (Hnode : ∀ d, str_split "-" match d with Nil => "0" | _ => NilEmpty.string_of_uint d end
                     = [match d with Nil => "0"%string | _ => NilEmpty.string_of_uint d end]).
  { intros d. destruct d; try apply str_split_uint. reflexivity. }
  assert (Htree : ∀ d s, str_split "-" (match d with Nil => "0" | _ => NilEmpty.string_of_uint d end +:+ String "-" s)
                     = match d with Nil => "0"%string | _ => NilEmpty.string_of_uint d end :: str_split "-" s).
  { intros d s. destruct d; try apply str_split_uint_sep. reflexivity. }
  change ("-" +:+ ?x)%string with (String "-" x).
  rewrite Htree, Hnode. reflexivity.
Qed.


Lemma int64_fits (z : Z) :
  int64_min ≤ z ≤ int64_max →
  (if (int64_min <=? z) && (z <=? int64_max) then Ok z else Raise OverflowError)
  = Ok z.
Proof.
  intros [Hlo Hhi].
  apply Z.leb_le in Hlo. apply Z.leb_le in Hhi. rewrite Hlo, Hhi. reflexivity.
Qed.

Lemma decode_cell_NaN : decode_cell NaN = Ok NO_CHILDREN.
Proof. reflexivity. Qed.

Lemma decode_cell_id (tree node : nat) :
  Z.of_nat node ≤ int64_max →
  decode_cell (PyStr (compound_id tree node)) = Ok (Z.of_nat node).
Proof.
  intros Hnode. unfold decode_cell, split_value.
  rewrite str_split_compound_id. cbn [py_list_get lookup list_lookup res_bind isna].
  unfold to_int. rewrite int_of_str_str_of_nat. cbn [res_bind].
  apply int64_fits. unfold int64_min. lia.
Qed.

Lemma decode_cell_index (node : nat) :
  Z.of_nat node ≤ int64_max →
  decode_cell (PyInt (Z.of_nat node)) = Ok (Z.of_nat node).
Proof.
  intros Hnode. unfold decode_cell, split_value, to_int. cbn [res_bind isna].
  apply int64_fits. unfold int64_min. lia.
Qed.

Lemma decode_cell_child_ref (n : nat) (v : pyval) :
  Z.of_nat n ≤ 2 ^ 63 →
  child_ref n v →
  ∃ z, decode_cell v = Ok z ∧ denotes v z
       ∧ (v = NaN ∧ z = NO_CHILDREN ∨ v ≠ NaN ∧ 0 ≤ z < Z.of_nat n).
Proof.
  intros Hn Hv. assert (Hmax : int64_max = 2 ^ 63 - 1) by reflexivity.
  destruct Hv as [|tree node Hnode|node Hnode].
  - exists NO_CHILDREN. split; [apply decode_cell_NaN|].
    split; [constructor|]. left. auto.
  - exists (Z.of_nat node). split; [apply decode_cell_id; lia|].
    split; [constructor|]. right. split; [discriminate|lia].
  - exists (Z.of_nat node). split; [apply decode_cell_index; lia|].
    split; [constructor|]. right. split; [discriminate|lia].
Qed.

Lemma res_mapM_map {A B C : Type} (f : B → res C) (h : A → B) (l : list A) :
  res_mapM f (map h l) = res_mapM (λ a, f (h a)) l.
Proof.
  induction l as [|a l IH]; simpl; [reflexivity|]. rewrite IH. reflexivity.
Qed.

Lemma calculate_children_cells (df : list Row) (column_name : string) :
  Forall (λ row, returns_normally (decode_cell (row_get row column_name))) df →
  _calculate_children df column_name
  = Ok (map (λ row, decoded (row_get row column_name)) df).
Proof.
  intros Hall. rewrite Forall_forall in Hall.
  unfold _calculate_children, _split_column_value.
  rewrite (res_mapM_Ok _
             (λ row, match split_value (row_get row column_name) with
                     | Ok part => part
                     | _ => PyNone
                     end)).
  - cbn [res_bind]. unfold _change_no_children_value.
    rewrite map_map, res_mapM_map. apply res_mapM_Ok.
    intros row Hrow. specialize (Hall row Hrow).
    unfold decoded, decode_cell in *.
    destruct (split_value (row_get row column_name)); simpl in *; try contradiction.
    destruct (to_int _); simpl in *; try contradiction. reflexivity.
  - intros row Hrow. specialize (Hall row Hrow). unfold decode_cell in Hall.
    destruct (split_value (row_get row column_name)); simpl in *;
      try contradiction. reflexivity.
Qed.

Lemma calculate_children_spec (df : list Row) (column_name : string) :
  Z.of_nat (length df) ≤ 2 ^ 63 →
  Forall (λ row, child_ref (length df) (row_get row column_name)) df →
  ∃ children,
    _calculate_children df column_name = Ok children
    ∧ length children = length df
    ∧ ∀ (i : nat) (row : Row), df !! i = Some row →
        children !! i = Some (decoded (row_get row column_name))
        ∧ decode_cell (row_get row column_name)
          = Ok (decoded (row_get row column_name)).
Proof.
  intros Hn Hcells. eexists. split; [|split].
  - apply calculate_children_cells. eapply Forall_impl; [exact Hcells|].
    intros row Hrow. destruct (decode_cell_child_ref _ _ Hn Hrow) as (z & -> & _).
    exact I.
  - apply length_map.
  - intros i row Hi. split.
    + rewrite list_lookup_fmap, Hi. reflexivity.
    + rewrite Forall_forall in Hcells.
      destruct (decode_cell_child_ref _ _ Hn (Hcells row (list_elem_of_lookup_2 _ _ _ Hi)))
        as (z & Hz & _).
      unfold decoded. rewrite Hz. reflexivity.
Qed.

(** C4. In a node table whose child cells are missing, compound
    identifiers of rows of the table, or bare row indices,
    [_calculate_children] returns an array as long as the table: a
    compound identifier is decoded to its node index, a bare index is
    kept, a missing cell becomes [NO_CHILDREN] (-1), and every other
    entry lies in [0, nnodes). The reference "0-5" decodes to 5, and
    [split_value] returns a value that is not a string as it is. *)
Theorem calculate_children_decodes (df : list Row) (column_name : string) :
  Z.of_nat (length df) ≤ 2 ^ 63 →
  Forall (λ row, child_ref (length df) (row_get row column_name)) df →
  ∃ children,
    _calculate_children df column_name = Ok children
    ∧ length children = length df
    ∧ (∀ (i : nat) (row : Row), df !! i = Some row →
         ∃ z, children !! i = Some z
              ∧ denotes (row_get row column_name) z
              ∧ (row_get row column_name = NaN ∧ z = NO_CHILDREN
                 ∨ row_get row column_name ≠ NaN ∧ 0 ≤ z < Z.of_nat (length df)))
    ∧ (∀ v, is_str v = false → split_value v = Ok v)
    ∧ split_value (PyStr "0-5") = Ok (PyStr "5")
    ∧ decode_cell (PyStr "0-5") = Ok 5.
Proof.
  intros Hn Hcells.
  destruct (calculate_children_spec df column_name Hn Hcells)
    as (children & Hch & Hlen & Hlook).
  exists children. split; [exact Hch|]. split; [exact Hlen|]. split; [|split].
  - intros i row Hi. destruct (Hlook i row Hi) as [Hz Hdec].
    rewrite Forall_forall in Hcells.
    destruct (decode_cell_child_ref _ _ Hn (Hcells row (list_elem_of_lookup_2 _ _ _ Hi)))
      as (z & Hz' & Hden & Hrange).
    exists z. rewrite Hz' in Hdec. injection Hdec as Heq. rewrite <- Heq in Hz. auto.
  - intros [s|f|z|] Hv; try discriminate; reflexivity.
  - split; reflexivity.
Qed.

Lemma calculate_children_decodes_witness :
  ∃ children,
    _calculate_children example_rows "Yes" = Ok children
    ∧ length children = length example_rows
    ∧ (∀ (i : nat) (row : Row), example_rows !! i = Some row →
         ∃ z, children !! i = Some z
              ∧ denotes (row_get row "Yes") z
              ∧ (row_get row "Yes" = NaN ∧ z = NO_CHILDREN
                 ∨ row_get row "Yes" ≠ NaN ∧ 0 ≤ z < Z.of_nat (length example_rows)))
    ∧ (∀ v, is_str v = false → split_value v = Ok v)
    ∧ split_value (PyStr "0-5") = Ok (PyStr "5")
    ∧ decode_cell (PyStr "0-5") = Ok 5.
Proof.
  apply (calculate_children_decodes example_rows "Yes").
  - simpl. lia.
  - repeat constructor.
    + apply (child_ref_id 3 0 1). lia.
Defined.

(** ** The shape of the arrays built from a tree's table *)

Lemma root_in_node_ids (t : btree) : root_id t ∈ node_ids t.
Proof. destruct t; simpl; left. Qed.

Lemma describes_cells (tree : nat) (df : list Row) (n : nat) (t : btree) :
  describes tree df t →
  (∀ i, i ∈ node_ids t → (i < n)%nat) →
  ∀ i, i ∈ node_ids t →
       ∃ row, df !! i = Some row ∧ child_ref n (Yes row) ∧ child_ref n (No row).
Proof.
  induction t as [j|j l IHl r IHr]; simpl; intros Hd Hlt i Hi.
  - apply list_elem_of_singleton in Hi as ->.
    destruct Hd as (row & Hrow & Hy & Hn). exists row.
    split; [exact Hrow|]. rewrite Hy, Hn. split; constructor.
  - destruct Hd as ((row & Hrow & Hy & Hn) & Hdl & Hdr).
    apply elem_of_cons in Hi as [->|Hi].
    + exists row. split; [exact Hrow|]. rewrite Hy, Hn.
      split; constructor; apply Hlt; right; apply elem_of_app;
        [left|right]; apply root_in_node_ids.
    + apply elem_of_app in Hi as [Hi|Hi].
      * apply IHl; auto. intros k Hk. apply Hlt. right. apply elem_of_app. auto.
      * apply IHr; auto. intros k Hk. apply Hlt. right. apply elem_of_app. auto.
Qed.

Lemma table_cells (tree : nat) (df : list Row) (t : btree) :
  table_of_tree tree df t →
  Forall (λ row, child_ref (length df) (Yes row) ∧ child_ref (length df) (No row)) df.
Proof.
  intros (_ & Hperm & Hd). apply Forall_lookup. intros i row Hi.
  assert (Hin : i ∈ node_ids t).
  { rewrite Hperm. apply elem_of_seq. apply lookup_lt_Some in Hi. lia. }
  destruct (describes_cells tree df (length df) t Hd) with (i := i)
    as (row' & Hrow' & Hcells); [|exact Hin|].
  - intros k Hk. rewrite Hperm in Hk. apply elem_of_seq in Hk. lia.
  - congruence.
Qed.

Lemma left_links_ids (t : btree) : map fst (left_links t) = node_ids t.
Proof.
  induction t as [j|j l IHl r IHr]; simpl; [reflexivity|].
  rewrite map_app, IHl, IHr. reflexivity.
Qed.

Lemma right_links_ids (t : btree) : map fst (right_links t) = node_ids t.
Proof.
  induction t as [j|j l IHl r IHr]; simpl; [reflexivity|].
  rewrite map_app, IHl, IHr. reflexivity.
Qed.

Lemma left_links_lookup (tree : nat) (df : list Row) (cl : list Z) (t : btree) :
  describes tree df t →
  (∀ i, i ∈ node_ids t → Z.of_nat i ≤ int64_max) →
  (∀ (i : nat) (row : Row), df !! i = Some row → cl !! i = Some (decoded (Yes row))) →
  ∀ p, p ∈ left_links t → cl !! p.1 = Some p.2.
Proof.
  intros Hd Hmax Hcl. induction t as [j|j l IHl r IHr]; simpl in *; intros p Hp.
  - apply list_elem_of_singleton in Hp as ->. simpl.
    destruct Hd as (row & Hrow & Hy & _). rewrite (Hcl j row Hrow), Hy. reflexivity.
  - destruct Hd as ((row & Hrow & Hy & _) & Hdl & Hdr).
    apply elem_of_cons in Hp as [->|Hp].
    + simpl. rewrite (Hcl j row Hrow), Hy. unfold decoded.
      rewrite decode_cell_id; [reflexivity|].
      apply Hmax. right. apply elem_of_app. left. apply root_in_node_ids.
    + apply elem_of_app in Hp as [Hp|Hp].
      * apply IHl; auto. intros k Hk. apply Hmax. right. apply elem_of_app. auto.
      * apply IHr; auto. intros k Hk. apply Hmax. right. apply elem_of_app. auto.
Qed.

Lemma right_links_lookup (tree : nat) (df : list Row) (cr : list Z) (t : btree) :
  describes tree df t →
  (∀ i, i ∈ node_ids t → Z.of_nat i ≤ int64_max) →
  (∀ (i : nat) (row : Row), df !! i = Some row → cr !! i = Some (decoded (No row))) →
  ∀ p, p ∈ right_links t → cr !! p.1 = Some p.2.
Proof.
  intros Hd Hmax Hcr. induction t as [j|j l IHl r IHr]; simpl in *; intros p Hp.
  - apply list_elem_of_singleton in Hp as ->. simpl.
    destruct Hd as (row & Hrow & _ & Hn). rewrite (Hcr j row Hrow), Hn. reflexivity.
  - destruct Hd as ((row & Hrow & _ & Hn) & Hdl & Hdr).
    apply elem_of_cons in Hp as [->|Hp].
    + simpl. rewrite (Hcr j row Hrow), Hn. unfold decoded.
      rewrite decode_cell_id; [reflexivity|].
      apply Hmax. right. apply elem_of_app. right. apply root_in_node_ids.
    + apply elem_of_app in Hp as [Hp|Hp].
      * apply IHl; auto. intros k Hk. apply Hmax. right. apply elem_of_app. auto.
      * apply IHr; auto. intros k Hk. apply Hmax. right. apply elem_of_app. auto.
Qed.

Lemma map_lookup_seq (a : list Z) :
  map (λ i, default 0 (a !! i)) (seq 0 (length a)) = a.
Proof.
  apply list_eq. intros i. rewrite list_lookup_fmap.
  destruct (a !! i) as [z|] eqn:Hi.
  - rewrite lookup_seq_lt by (eapply lookup_lt_Some, Hi). simpl. rewrite Hi. reflexivity.
  - rewrite lookup_seq_ge by (apply lookup_ge_None, Hi). reflexivity.
Qed.

(** An array is, up to order, the list of the values its cells hold. *)
Lemma links_permutation (a : list Z) (links : list (nat * Z)) :
  map fst links ≡ₚ seq 0 (length a) →
  (∀ p, p ∈ links → a !! p.1 = Some p.2) →
  map snd links ≡ₚ a.
Proof.
  intros Hperm Hlook.
  assert (Heq : map snd links = map (λ i, default 0 (a !! i)) (map fst links)).
  { rewrite map_map. apply map_ext_in. intros p Hp. apply list_elem_of_In in Hp.
    rewrite (Hlook p Hp). reflexivity. }
  rewrite Heq. etransitivity; [apply Permutation_map, Hperm|].
  rewrite map_lookup_seq. reflexivity.
Qed.

Lemma count_left_links (t : btree) (j : nat) :
  count_occ Z.eq_dec (map snd (left_links t)) (Z.of_nat j)
  = count_occ Nat.eq_dec (yes_children t) j.
Proof.
  induction t as [i|i l IHl r IHr];
    cbn [left_links yes_children map snd].
  - rewrite count_occ_cons_neq by (unfold NO_CHILDREN; lia). reflexivity.
  - rewrite map_app.
    destruct (decide (root_id l = j)) as [Heq|Hne].
    + rewrite !count_occ_cons_eq by (rewrite ?Heq; reflexivity).
      rewrite !count_occ_app, IHl, IHr. reflexivity.
    + rewrite !count_occ_cons_neq by (try exact Hne; lia).
      rewrite !count_occ_app, IHl, IHr. reflexivity.
Qed.

Lemma count_right_links (t : btree) (j : nat) :
  count_occ Z.eq_dec (map snd (right_links t)) (Z.of_nat j)
  = count_occ Nat.eq_dec (no_children t) j.
Proof.
  induction t as [i|i l IHl r IHr];
    cbn [right_links no_children map snd].
  - rewrite count_occ_cons_neq by (unfold NO_CHILDREN; lia). reflexivity.
  - rewrite map_app.
    destruct (decide (root_id r = j)) as [Heq|Hne].
    + rewrite !count_occ_cons_eq by (rewrite ?Heq; reflexivity).
      rewrite !count_occ_app, IHl, IHr. reflexivity.
    + rewrite !count_occ_cons_neq by (try exact Hne; lia).
      rewrite !count_occ_app, IHl, IHr. reflexivity.
Qed.

(** Every node but the root is the yes-child or the no-child of a node,
    as often as it occurs in the tree. *)
Lemma count_node_ids (t : btree) (j : nat) :
  count_occ Nat.eq_dec (node_ids t) j
  = ((if decide (root_id t = j) then 1 else 0)
     + count_occ Nat.eq_dec (yes_children t) j
     + count_occ Nat.eq_dec (no_children t) j)%nat.
Proof.
  assert (Hcons : ∀ (x : nat) (l : list nat),
             count_occ Nat.eq_dec (x :: l) j
             = ((if decide (x = j) then 1 else 0) + count_occ Nat.eq_dec l j)%nat).
  { intros x l. destruct (decide (x = j)) as [Heq|Hne].
    - rewrite count_occ_cons_eq by exact Heq. reflexivity.
    - rewrite count_occ_cons_neq by exact Hne. reflexivity. }
  induction t as [i|i l IHl r IHr];
    cbn [node_ids yes_children no_children root_id].
  - rewrite Hcons. simpl. lia.
  - rewrite !Hcons, !count_occ_app, IHl, IHr. lia.
Qed.

Lemma count_seq (n j : nat) :
  (j < n)%nat → count_occ Nat.eq_dec (seq 0 n) j = 1%nat.
Proof.
  intros Hj. apply NoDup_count_occ'; [apply List.seq_NoDup|].
  apply in_seq. lia.
Qed.

Lemma count_children_array (a : list Z) (links : list (nat * Z)) (z : Z) :
  map fst links ≡ₚ seq 0 (length a) →
  (∀ p, p ∈ links → a !! p.1 = Some p.2) →
  count_occ Z.eq_dec a z = count_occ Z.eq_dec (map snd links) z.
Proof.
  intros Hperm Hlook. symmetry.
  apply Permutation_count_occ, links_permutation; assumption.
Qed.

Lemma count_elem_of (a : list Z) (z : Z) :
  (z ∈ a ↔ count_occ Z.eq_dec a z ≠ 0%nat).
Proof.
  rewrite list_elem_of_In, (count_occ_In Z.eq_dec). lia.
Qed.

(** The two columns of a tree's table decode, cell by cell, to the
    children the tree has. *)
Lemma table_children (tree : nat) (df : list Row) (t : btree) :
  table_of_tree tree df t →
  Z.of_nat (length df) ≤ 2 ^ 63 →
  ∃ cl cr,
    _calculate_children df LEFT_CHILDREN_COLUMN = Ok cl
    ∧ _calculate_children df RIGHT_CHILDREN_COLUMN = Ok cr
    ∧ length cl = length df ∧ length cr = length df
    ∧ (∀ p, p ∈ left_links t → cl !! p.1 = Some p.2)
    ∧ (∀ p, p ∈ right_links t → cr !! p.1 = Some p.2).
Proof.
  intros Htable Hn.
  pose proof (table_cells tree df t Htable) as Hcells.
  destruct Htable as (Hroot & Hperm & Hd).
  destruct (calculate_children_spec df LEFT_CHILDREN_COLUMN Hn)
    as (cl & Hcl & Hlenl & Hlookl).
  { eapply Forall_impl; [exact Hcells|]. intros row [H _]. exact H. }
  destruct (calculate_children_spec df RIGHT_CHILDREN_COLUMN Hn)
    as (cr & Hcr & Hlenr & Hlookr).
  { eapply Forall_impl; [exact Hcells|]. intros row [_ H]. exact H. }
  assert (Hmax : ∀ k, k ∈ node_ids t → Z.of_nat k ≤ int64_max).
  { intros k Hk. rewrite Hperm in Hk. apply elem_of_seq in Hk.
    assert (int64_max = 2 ^ 63 - 1) by reflexivity. lia. }
  exists cl, cr. repeat split; try assumption.
  - apply (left_links_lookup tree df cl t Hd Hmax).
    intros k row Hk. apply (Hlookl k row Hk).
  - apply (right_links_lookup tree df cr t Hd Hmax).
    intros k row Hk. apply (Hlookr k row Hk).
Qed.

Lemma depths_ids (k : nat) (t : btree) : map fst (depths k t) = node_ids t.
Proof.
  revert k. induction t as [i|i l IHl r IHr]; intros k; simpl; [reflexivity|].
  rewrite map_app, IHl, IHr. reflexivity.
Qed.

Lemma root_depth (k : nat) (t : btree) : (root_id t, k) ∈ depths k t.
Proof. destruct t; simpl; left. Qed.

Lemma edges_depths (t : btree) (k p c : nat) :
  (p, c) ∈ edges t → ∃ d, (p, d) ∈ depths k t ∧ (c, S d) ∈ depths k t.
Proof.
  revert k. induction t as [i|i l IHl r IHr]; intros k; simpl; intros H.
  - apply elem_of_nil in H. contradiction.
  - apply elem_of_cons in H as [H|H].
    { injection H as -> ->. exists k. split; [left|].
      right. apply elem_of_app. left. apply root_depth. }
    apply elem_of_cons in H as [H|H].
    { injection H as -> ->. exists k. split; [left|].
      right. apply elem_of_app. right. apply root_depth. }
    apply elem_of_app in H as [H|H].
    + destruct (IHl (S k) H) as (d & Hp & Hc). exists d.
      split; right; apply elem_of_app; left; assumption.
    + destruct (IHr (S k) H) as (d & Hp & Hc). exists d.
      split; right; apply elem_of_app; right; assumption.
Qed.

Lemma assoc_functional {A B : Type} (l : list (A * B)) (a : A) (x y : B) :
  NoDup (map fst l) → (a, x) ∈ l → (a, y) ∈ l → x = y.
Proof.
  induction l as [|[a' b'] l IH]; simpl; intros Hnd Hx Hy.
  - apply elem_of_nil in Hx. contradiction.
  - apply NoDup_cons in Hnd as [Hnotin Hnd].
    assert (Hfst : ∀ b, (a', b) ∈ l → False).
    { intros b Hb. apply Hnotin. apply (list_elem_of_fmap_2 fst) in Hb. exact Hb. }
    apply elem_of_cons in Hx as [Hx|Hx]; apply elem_of_cons in Hy as [Hy|Hy].
    + congruence.
    + injection Hx as -> ->. exfalso. eapply Hfst, Hy.
    + injection Hy as -> ->. exfalso. eapply Hfst, Hx.
    + auto.
Qed.

Lemma left_links_edges (t : btree) (i : nat) (v : Z) :
  (i, v) ∈ left_links t →
  v = NO_CHILDREN ∨ ∃ c : nat, v = Z.of_nat c ∧ (i, c) ∈ edges t.
Proof.
  induction t as [j|j l IHl r IHr]; simpl; intros H.
  - apply list_elem_of_singleton in H. injection H as -> ->. left. reflexivity.
  - apply elem_of_cons in H as [H|H]; [injection H as -> ->|].
    + right. exists (root_id l). split; [reflexivity|left].
    + apply elem_of_app in H as [H|H];
        [destruct (IHl H) as [->|(c & -> & Hc)]|destruct (IHr H) as [->|(c & -> & Hc)]];
        auto; right; exists c; (split; [reflexivity|]);
        right; right; apply elem_of_app; auto.
Qed.

Lemma right_links_edges (t : btree) (i : nat) (v : Z) :
  (i, v) ∈ right_links t →
  v = NO_CHILDREN ∨ ∃ c : nat, v = Z.of_nat c ∧ (i, c) ∈ edges t.
Proof.
  induction t as [j|j l IHl r IHr]; simpl; intros H.
  - apply list_elem_of_singleton in H. injection H as -> ->. left. reflexivity.
  - apply elem_of_cons in H as [H|H]; [injection H as -> ->|].
    + right. exists (root_id r). split; [reflexivity|right; left].
    + apply elem_of_app in H as [H|H];
        [destruct (IHl H) as [->|(c & -> & Hc)]|destruct (IHr H) as [->|(c & -> & Hc)]];
        auto; right; exists c; (split; [reflexivity|]);
        right; right; apply elem_of_app; auto.
Qed.

Section TableArrays.
Variables (t : btree) (cl cr : list Z).
Hypothesis ids_dense : node_ids t ≡ₚ seq 0 (length cl).
Hypothesis same_length : length cl = length cr.
Hypothesis left_cells : ∀ p, p ∈ left_links t → cl !! p.1 = Some p.2.
Hypothesis right_cells : ∀ p, p ∈ right_links t → cr !! p.1 = Some p.2.

Lemma ids_NoDup : NoDup (node_ids t).
Proof. rewrite ids_dense. apply NoDup_seq. Qed.

(** A cell that holds a node id is an edge of the tree. *)
Lemma parent_rel_edge (p c : Z) :
  parent_rel cl cr p c → 0 ≤ c →
  ∃ i j : nat, p = Z.of_nat i ∧ c = Z.of_nat j ∧ (i, j) ∈ edges t.
Proof.
  intros (i & -> & Hcell) Hc.
  assert (Hi : i ∈ node_ids t).
  { rewrite ids_dense. apply elem_of_seq.
    destruct Hcell as [H|H]; apply lookup_lt_Some in H; lia. }
  destruct Hcell as [Hcell|Hcell].
  - rewrite <- left_links_ids in Hi.
    apply list_elem_of_fmap in Hi as ([i' v] & -> & Hlink).
    pose proof (left_cells _ Hlink) as Hv. simpl in Hv, Hcell.
    rewrite Hcell in Hv. injection Hv as <-.
    destruct (left_links_edges _ _ _ Hlink) as [->|(j & -> & Hedge)].
    + unfold NO_CHILDREN in Hc. lia.
    + exists i', j. auto.
  - rewrite <- right_links_ids in Hi.
    apply list_elem_of_fmap in Hi as ([i' v] & -> & Hlink).
    pose proof (right_cells _ Hlink) as Hv. simpl in Hv, Hcell.
    rewrite Hcell in Hv. injection Hv as <-.
    destruct (right_links_edges _ _ _ Hlink) as [->|(j & -> & Hedge)].
    + unfold NO_CHILDREN in Hc. lia.
    + exists i', j. auto.
Qed.

(** Along the parent relation the depth in the tree grows. *)
Lemma ancestor_depth (x y : Z) :
  tc (parent_rel cl cr) x y → 0 ≤ y →
  ∃ (i j dx dy : nat),
    x = Z.of_nat i ∧ y = Z.of_nat j
    ∧ (i, dx) ∈ depths 0 t ∧ (j, dy) ∈ depths 0 t ∧ (dx < dy)%nat.
Proof.
  induction 1 as [x y Hxy|x y z Hxy _ IH]; intros Hpos.
  - destruct (parent_rel_edge x y Hxy Hpos) as (i & j & -> & -> & Hedge).
    destruct (edges_depths t 0 i j Hedge) as (d & Hi & Hj).
    exists i, j, d, (S d). repeat split; auto.
  - destruct (IH Hpos) as (j & k & dy & dz & -> & -> & Hj & Hk & Hlt).
    destruct (parent_rel_edge x (Z.of_nat j) Hxy ltac:(lia))
      as (i & j' & -> & Hjj & Hedge).
    apply Nat2Z.inj in Hjj. subst j'.
    destruct (edges_depths t 0 i j Hedge) as (d & Hi & Hj').
    assert (dy = S d).
    { eapply (assoc_functional (depths 0 t) j); [|exact Hj|exact Hj'].
      rewrite depths_ids. apply ids_NoDup. }
    exists i, k, d, dz. repeat split; auto. lia.
Qed.

Lemma table_arrays_acyclic : acyclic cl cr.
Proof.
  intros x Hx.
  assert (Hpos : 0 ≤ x).
  { inversion Hx as [? ? (i & -> & _)|? ? ? (i & -> & _) _]; lia. }
  destruct (ancestor_depth x x Hx Hpos) as (i & j & dx & dy & -> & Hij & Hi & Hj & Hlt).
  apply Nat2Z.inj in Hij. subst j.
  assert (dx = dy).
  { eapply (assoc_functional (depths 0 t) i); [|exact Hi|exact Hj].
    rewrite depths_ids. apply ids_NoDup. }
  lia.
Qed.

(** How many cells refer to a node: none for the root, one otherwise. *)
Lemma table_child_refs (i : nat) :
  (i < length cl)%nat →
  child_refs cl cr (Z.of_nat i)
  = (if decide (root_id t = i) then 0 else 1)%nat.
Proof.
  intros Hi. unfold child_refs.
  rewrite (count_children_array cl (left_links t)), count_left_links;
    [|rewrite left_links_ids; exact ids_dense|exact left_cells].
  rewrite (count_children_array cr (right_links t)), count_right_links;
    [|rewrite right_links_ids, <- same_length; exact ids_dense|exact right_cells].
  pose proof (count_node_ids t i) as Hcount.
  rewrite (proj1 (Permutation_count_occ Nat.eq_dec _ _) ids_dense), count_seq
    in Hcount by exact Hi.
  destruct (decide (root_id t = i)); lia.
Qed.
End TableArrays.


(** Adapters built from a tree's table have child arrays that form a
    tree in the sense the walk needs. *)
Lemma table_arrays_well_formed (b : Booster) (idx : Z) (x : XData)
    (tree : nat) (t : btree) (self : XGBDTree) :
  table_of_tree tree (_get_tree_dataframe b idx) t →
  Z.of_nat (length (_get_tree_dataframe b idx)) ≤ 2 ^ 63 →
  __init__ b idx x = Ok self →
  well_formed_tree (children_left self) (children_right self).
Proof.
  intros Htable Hn Hinit.
  destruct (table_children tree _ t Htable Hn)
    as (cl & cr & Hcl & Hcr & Hlenl & Hlenr & Hleft & Hright).
  destruct Htable as (Hroot & Hperm & _).
  unfold __init__ in Hinit. rewrite Hcl, Hcr in Hinit. simpl in Hinit.
  injection Hinit as <-. simpl. rewrite <- Hlenl in Hperm.
  assert (Hlen : length cl = length cr) by congruence.
  split.
  - exact Hlen.
  - intros i Hi. rewrite (table_child_refs t cl cr Hperm Hlen Hleft Hright) by lia.
    rewrite Hroot. destruct (decide (0%nat = i)); [lia|reflexivity].
  - apply (table_arrays_acyclic t cl cr Hperm Hlen Hleft Hright).
Qed.

(** C8. For the arrays [__init__] builds from the node table of a single
    tree (dense node ids, root 0): the adapter keeps that table, [nnodes]
    is its number of rows, which is the number of nodes of the tree; the
    cell of a node in the left (right) array is the id of its left
    (right) child, or -1 at a leaf; both arrays have length [nnodes],
    every valid id is exactly one of the root, an entry of the left
    array, an entry of the right array, and every id but the root is
    referred to by exactly one cell of the two arrays (the root by
    none). *)
Theorem children_arrays_tree_shape (b : Booster) (idx : Z) (x : XData)
    (tree : nat) (t : btree) :
  table_of_tree tree (_get_tree_dataframe b idx) t →
  Z.of_nat (length (_get_tree_dataframe b idx)) ≤ 2 ^ 63 →
  ∃ self, __init__ b idx x = Ok self
    ∧ tree_to_dataframe self = _get_tree_dataframe b idx
    ∧ nnodes self = length (_get_tree_dataframe b idx)
    ∧ nnodes self = length (node_ids t)
    ∧ (∀ p, p ∈ left_links t → children_left self !! p.1 = Some p.2)
    ∧ (∀ p, p ∈ right_links t → children_right self !! p.1 = Some p.2)
    ∧ length (children_left self) = nnodes self
    ∧ length (children_right self) = nnodes self
    ∧ ∀ i : nat, (i < nnodes self)%nat →
        exactly_one (Z.of_nat i = ROOT_NODE)
                    (Z.of_nat i ∈ children_left self)
                    (Z.of_nat i ∈ children_right self)
        ∧ child_refs (children_left self) (children_right self) (Z.of_nat i)
          = (if decide (Z.of_nat i = ROOT_NODE) then 0 else 1)%nat.
Proof.
  intros Htable Hn.
  destruct (table_children tree _ t Htable Hn)
    as (cl & cr & Hcl & Hcr & Hlenl & Hlenr & Hleft & Hright).
  destruct Htable as (Hroot & Hperm & _).
  eexists. split.
  { unfold __init__. rewrite Hcl, Hcr. reflexivity. }
  unfold nnodes. cbn [children_left children_right tree_to_dataframe].
  do 2 (split; [reflexivity|]).
  split; [rewrite Hperm; symmetry; apply length_seq|].
  split; [exact Hleft|]. split; [exact Hright|].
  split; [exact Hlenl|]. split; [exact Hlenr|]. intros i Hi.
  rewrite <- Hlenl in Hperm, Hi.
  assert (Hlen : length cl = length cr) by congruence.
  pose proof (table_child_refs t cl cr Hperm Hlen Hleft Hright i Hi) as Hrefs.
  rewrite Hroot in Hrefs. split.
  - unfold child_refs in Hrefs. unfold exactly_one, ROOT_NODE.
    rewrite !count_elem_of.
    destruct (decide (0%nat = i)) as [<-|Hne].
    + left. split; [reflexivity|]. lia.
    + destruct (count_occ Z.eq_dec cl (Z.of_nat i)) as [|[|c]];
        [right; right|right; left|]; lia.
  - rewrite Hrefs. unfold ROOT_NODE.
    destruct (decide (0%nat = i)); destruct (decide (Z.of_nat i = 0)); lia.
Qed.

Lemma example_table_of_tree : table_of_tree 0 example_rows example_btree.
Proof.
  split; [reflexivity|]. split; [reflexivity|].
  simpl. split; [|split]; eexists; (split; [reflexivity|split; reflexivity]).
Qed.

Lemma children_arrays_tree_shape_witness :
  ∃ self, __init__ (example_booster "binary:logistic") 0 [] = Ok self
    ∧ tree_to_dataframe self
      = _get_tree_dataframe (example_booster "binary:logistic") 0
    ∧ nnodes self
      = length (_get_tree_dataframe (example_booster "binary:logistic") 0)
    ∧ nnodes self = length (node_ids example_btree)
    ∧ (∀ p, p ∈ left_links example_btree → children_left self !! p.1 = Some p.2)
    ∧ (∀ p, p ∈ right_links example_btree → children_right self !! p.1 = Some p.2)
    ∧ length (children_left self) = nnodes self
    ∧ length (children_right self) = nnodes self
    ∧ ∀ i : nat, (i < nnodes self)%nat →
        exactly_one (Z.of_nat i = ROOT_NODE)
                    (Z.of_nat i ∈ children_left self)
                    (Z.of_nat i ∈ children_right self)
        ∧ child_refs (children_left self) (children_right self) (Z.of_nat i)
          = (if decide (Z.of_nat i = ROOT_NODE) then 0 else 1)%nat.
Proof.
  apply (children_arrays_tree_shape (example_booster "binary:logistic") 0 []
           0%nat example_btree).
  - exact example_table_of_tree.
  - simpl. lia.
Defined.

(** For an adapter built from a tree's table, the path of every node id
    comes back, starts at that id and holds the root exactly once. *)
Lemma tree_table_leaf_path (b : Booster) (idx : Z) (x : XData)
    (tree : nat) (t : btree) (self : XGBDTree) (fuel : nat) (leaf : Z) :
  table_of_tree tree (_get_tree_dataframe b idx) t →
  Z.of_nat (length (_get_tree_dataframe b idx)) ≤ 2 ^ 63 →
  __init__ b idx x = Ok self →
  0 ≤ leaf < Z.of_nat (nnodes self) →
  (nnodes self < fuel)%nat →
  ∃ path, _get_leaf_prediction_path self fuel leaf = Ok path
          ∧ leaf ∈ path
          ∧ count_occ Z.eq_dec path ROOT_NODE = 1%nat.
Proof.
  intros Htable Hn Hinit Hleaf Hfuel.
  pose proof (table_arrays_well_formed b idx x tree t self Htable Hn Hinit) as Hwf.
  destruct (table_children tree _ t Htable Hn) as (cl & cr & Hcl & Hcr & Hlenl & _).
  assert (Hlen : length (children_left self) = nnodes self).
  { unfold __init__ in Hinit. rewrite Hcl, Hcr in Hinit. simpl in Hinit.
    injection Hinit as <-. exact Hlenl. }
  apply leaf_path_in_tree; [exact Hwf|lia|lia].
Qed.

(** ** What construction makes of missing cells and identifiers *)

Lemma decode_cell_missing (v : pyval) :
  isna v = true → decode_cell v = Ok NO_CHILDREN.
Proof.
  destruct v as [s|f|z|]; simpl; try discriminate.
  - destruct f; simpl; try discriminate. reflexivity.
  - reflexivity.
Qed.

Lemma link_cell_decode (v : pyval) (z : Z) :
  link_cell v z → decode_cell v = Ok z.
Proof.
  intros [v' Hna|tree node Hmax].
  - apply decode_cell_missing, Hna.
  - apply decode_cell_id, Hmax.
Qed.

Lemma link_cell_decoded (v : pyval) :
  (∃ z, link_cell v z) →
  returns_normally (decode_cell v) ∧ link_cell v (decoded v).
Proof.
  intros (z & Hz). pose proof (link_cell_decode v z Hz) as Hdec.
  unfold decoded. rewrite Hdec. split; [exact I|exact Hz].
Qed.

(** X1. When every child cell of the selected rows is missing (NaN or
    None) or the compound identifier of a node with an index below 2^63,
    whether or not the table has a row for that node, [__init__]
    succeeds, keeps the selected rows as its table, and builds two arrays
    with one entry per row: -1 where the cell is missing, the node index
    where it is an identifier. A cell stands for one value only. *)
Theorem init_decodes_link_cells (b : Booster) (idx : Z) (x : XData) :
  Forall (λ row, (∃ z, link_cell (Yes row) z) ∧ (∃ z, link_cell (No row) z))
         (_get_tree_dataframe b idx) →
  ∃ self,
    __init__ b idx x = Ok self
    ∧ tree_to_dataframe self = _get_tree_dataframe b idx
    ∧ length (children_left self) = nnodes self
    ∧ length (children_right self) = nnodes self
    ∧ (∀ (i : nat) (row : Row), _get_tree_dataframe b idx !! i = Some row →
         ∃ l r, children_left self !! i = Some l
                ∧ children_right self !! i = Some r
                ∧ link_cell (Yes row) l ∧ link_cell (No row) r)
    ∧ ∀ v z z', link_cell v z → link_cell v z' → z = z'.
Proof.
  intros Hcells.
  assert (Hl : _calculate_children (_get_tree_dataframe b idx) LEFT_CHILDREN_COLUMN
               = Ok (map (λ row, decoded (Yes row)) (_get_tree_dataframe b idx))).
  { apply (calculate_children_cells _ LEFT_CHILDREN_COLUMN).
    eapply Forall_impl; [exact Hcells|]. intros row [H _].
    apply (link_cell_decoded _ H). }
  assert (Hr : _calculate_children (_get_tree_dataframe b idx) RIGHT_CHILDREN_COLUMN
               = Ok (map (λ row, decoded (No row)) (_get_tree_dataframe b idx))).
  { apply (calculate_children_cells _ RIGHT_CHILDREN_COLUMN).
    eapply Forall_impl; [exact Hcells|]. intros row [_ H].
    apply (link_cell_decoded _ H). }
  eexists. split; [unfold __init__; rewrite Hl, Hr; reflexivity|].
  unfold nnodes. cbn [tree_to_dataframe children_left children_right].
  split; [reflexivity|]. rewrite !length_map. do 2 (split; [reflexivity|]).
  split.
  - intros i row Hi.
    pose proof (proj1 (Forall_lookup _ _) Hcells i row Hi) as [Hy Hn].
    exists (decoded (Yes row)), (decoded (No row)).
    rewrite !list_lookup_fmap, Hi. simpl.
    split; [reflexivity|]. split; [reflexivity|].
    split; [apply (link_cell_decoded _ Hy)|apply (link_cell_decoded _ Hn)].
  - intros v z z' Hz Hz'. apply link_cell_decode in Hz, Hz'. congruence.
Qed.

Lemma init_decodes_link_cells_witness :
  ∃ self,
    __init__ dangling_booster 0 [] = Ok self
    ∧ tree_to_dataframe self = _get_tree_dataframe dangling_booster 0
    ∧ length (children_left self) = nnodes self
    ∧ length (children_right self) = nnodes self
    ∧ (∀ (i : nat) (row : Row),
         _get_tree_dataframe dangling_booster 0 !! i = Some row →
         ∃ l r, children_left self !! i = Some l
                ∧ children_right self !! i = Some r
                ∧ link_cell (Yes row) l ∧ link_cell (No row) r)
    ∧ ∀ v z z', link_cell v z → link_cell v z' → z = z'.
Proof.
  apply (init_decodes_link_cells dangling_booster 0 []).
  repeat constructor.
  - exists 7. apply (link_id 0 7). unfold int64_max. lia.
  - exists NO_CHILDREN. apply link_missing. reflexivity.
Defined.

(** ** Child references without a separator *)

Lemma str_split_no_sep (sep : ascii) (a : string) :
  sep ∉ list_ascii_of_string a → str_split sep a = [a].
Proof.
  induction a as [|c a IH]; simpl; intros Hnot; [reflexivity|].
  destruct (Ascii.eqb_spec c sep) as [->|Hne].
  - exfalso. apply Hnot. left.
  - rewrite IH; [reflexivity|]. intros Hin. apply Hnot. right. exact Hin.
Qed.

Lemma str_split_app (sep : ascii) (a s : string) :
  sep ∉ list_ascii_of_string a →
  str_split sep (a +:+ String sep s) = a :: str_split sep s.
Proof.
  induction a as [|c a IH]; simpl; intros Hnot.
  - rewrite Ascii.eqb_refl. reflexivity.
  - destruct (Ascii.eqb_spec c sep) as [->|Hne].
    + exfalso. apply Hnot. left.
    + rewrite IH; [reflexivity|]. intros Hin. apply Hnot. right. exact Hin.
Qed.

Lemma split_value_Ok_or_IndexError (v : pyval) :
  (∃ part, split_value v = Ok part) ∨ split_value v = Raise IndexError.
Proof.
  destruct v as [s|f|z|]; simpl; eauto.
  unfold py_list_get. destruct (str_split "-" s !! 1%nat); simpl; eauto.
Qed.

Lemma res_mapM_raises {A B : Type} (f : A → res B) (e : exn) (l : list A) :
  (∀ x, x ∈ l → (∃ y, f x = Ok y) ∨ f x = Raise e) →
  (∃ x, x ∈ l ∧ f x = Raise e) →
  res_mapM f l = Raise e.
Proof.
  induction l as [|a l IH]; intros Hall (x & Hx & Hfx).
  - apply elem_of_nil in Hx. contradiction.
  - simpl. destruct (Hall a) as [(y & Hy)|Hy]; [left| |rewrite Hy; reflexivity].
    rewrite Hy. simpl.
    apply elem_of_cons in Hx as [->|Hx]; [congruence|].
    rewrite IH; [reflexivity| |eauto].
    intros x' Hx'. apply Hall. right. exact Hx'.
Qed.

(** X3. [split_value] on a string returns the text between the first
    and the second "-" (or the end), whatever stands before the first;
    a string without "-" raises [IndexError]. *)
Theorem split_value_separator (a part rest : string) :
  "-"%char ∉ list_ascii_of_string a →
  "-"%char ∉ list_ascii_of_string part →
  split_value (PyStr a) = Raise IndexError
  ∧ split_value (PyStr (a +:+ "-" +:+ part)) = Ok (PyStr part)
  ∧ split_value (PyStr (a +:+ "-" +:+ part +:+ "-" +:+ rest)) = Ok (PyStr part).
Proof.
  intros Ha Hpart. unfold split_value. split; [|split].
  - rewrite (str_split_no_sep _ _ Ha). reflexivity.
  - change ("-" +:+ part)%string with (String "-" part).
    rewrite (str_split_app _ _ _ Ha), (str_split_no_sep _ _ Hpart). reflexivity.
  - change ("-" +:+ (part +:+ "-" +:+ rest))%string
      with (String "-" (part +:+ String "-" rest)).
    rewrite (str_split_app _ _ _ Ha), (str_split_app _ _ _ Hpart). reflexivity.
Qed.

Lemma split_value_separator_witness :
  split_value (PyStr "7") = Raise IndexError
  ∧ split_value (PyStr ("7" +:+ "-" +:+ "12")) = Ok (PyStr "12")
  ∧ split_value (PyStr ("7" +:+ "-" +:+ "12" +:+ "-" +:+ "x")) = Ok (PyStr "12").
Proof.
  apply (split_value_separator "7" "12" "x").
  - intros H. apply list_elem_of_singleton in H. discriminate H.
  - intros H. apply elem_of_cons in H as [H|H]; [discriminate H|].
    apply list_elem_of_singleton in H. discriminate H.
Defined.

(** X4. If a "Yes" cell of the selected tree is a string without "-",
    the left-child computation raises [IndexError] and so does
    [__init__]: no adapter is built. *)
Theorem init_rejects_bare_string (b : Booster) (idx : Z) (x : XData)
    (row : Row) (s : string) :
  row ∈ _get_tree_dataframe b idx →
  Yes row = PyStr s →
  "-"%char ∉ list_ascii_of_string s →
  _calculate_children (_get_tree_dataframe b idx) LEFT_CHILDREN_COLUMN
  = Raise IndexError
  ∧ __init__ b idx x = Raise IndexError.
Proof.
  intros Hrow Hyes Hs.
  assert (H : _calculate_children (_get_tree_dataframe b idx) LEFT_CHILDREN_COLUMN
              = Raise IndexError).
  { unfold _calculate_children, _split_column_value.
    rewrite (res_mapM_raises _ IndexError); [reflexivity| |].
    - intros r _. apply split_value_Ok_or_IndexError.
    - exists row. split; [exact Hrow|].
      change (row_get row LEFT_CHILDREN_COLUMN) with (Yes row). rewrite Hyes.
      unfold split_value. rewrite (str_split_no_sep _ _ Hs). reflexivity. }
  split; [exact H|]. unfold __init__. rewrite H. reflexivity.
Qed.

Lemma init_rejects_bare_string_witness :
  _calculate_children (_get_tree_dataframe bare_reference_booster 0) LEFT_CHILDREN_COLUMN
  = Raise IndexError
  ∧ __init__ bare_reference_booster 0 [] = Raise IndexError.
Proof.
  apply (init_rejects_bare_string bare_reference_booster 0 [] bare_reference_row "1").
  - left.
  - reflexivity.
  - intros H. apply list_elem_of_singleton in H. discriminate H.
Defined.

(** ** The per-node accessors *)

Lemma get_column_value_Ok (self : XGBDTree) (column_name : string) :
  constructed self →
  column_name ∈ column_names →
  _get_column_value self column_name
  = Ok (map (λ r, row_get r column_name) (tree_to_dataframe self)).
Proof.
  intros Hc Hin. destruct (constructed_inv self Hc) as (Hdf & _).
  unfold _get_column_value, df_column. rewrite <- Hdf.
  rewrite bool_decide_eq_true_2 by exact Hin. reflexivity.
Qed.

Lemma np_getitem_outside {A : Type} (a : list A) (i : Z) :
  i < - Z.of_nat (length a) ∨ Z.of_nat (length a) ≤ i →
  np_getitem a i = Raise IndexError.
Proof.
  intros Hi. unfold np_getitem.
  replace ((0 <=? i) && (i <? Z.of_nat (length a))) with false
    by (symmetry; apply andb_false_iff; rewrite Z.leb_gt, Z.ltb_ge; lia).
  replace ((- Z.of_nat (length a) <=? i) && (i <? 0)) with false
    by (symmetry; apply andb_false_iff; rewrite Z.leb_gt, Z.ltb_ge; lia).
  reflexivity.
Qed.

Lemma np_getitem_negative {A : Type} (a : list A) (i : Z) :
  - Z.of_nat (length a) ≤ i < 0 →
  np_getitem a i = np_getitem a (i + Z.of_nat (length a)).
Proof.
  intros Hi. unfold np_getitem.
  replace ((0 <=? i) && (i <? Z.of_nat (length a))) with false
    by (symmetry; apply andb_false_iff; rewrite Z.leb_gt, Z.ltb_ge; lia).
  replace ((- Z.of_nat (length a) <=? i) && (i <? 0)) with true
    by (symmetry; apply andb_true_iff; rewrite Z.leb_le, Z.ltb_lt; lia).
  replace ((0 <=? i + Z.of_nat (length a))
           && (i + Z.of_nat (length a) <? Z.of_nat (length a))) with true
    by (symmetry; apply andb_true_iff; rewrite Z.leb_le, Z.ltb_lt; lia).
  f_equal. lia.
Qed.

(** X5. [get_node_split] and [get_node_feature] index the column like a
    numpy array: an id outside [-nnodes, nnodes) raises [IndexError], and
    a negative id in range gives what [id + nnodes] gives. *)
Theorem node_accessors_index_bounds (self : XGBDTree) (id : Z) :
  constructed self →
  (id < - Z.of_nat (nnodes self) ∨ Z.of_nat (nnodes self) ≤ id →
   get_node_split self id = Raise IndexError
   ∧ get_node_feature self id = Raise IndexError)
  ∧ (- Z.of_nat (nnodes self) ≤ id < 0 →
     get_node_split self id = get_node_split self (id + Z.of_nat (nnodes self))
     ∧ get_node_feature self id
       = get_node_feature self (id + Z.of_nat (nnodes self))).
Proof.
  intros Hc. unfold get_node_split, get_node_feature, nnodes.
  rewrite !get_column_value_Ok by (exact Hc || set_solver). simpl.
  rewrite <- (length_map (λ r, row_get r "Split") (tree_to_dataframe self)) at 1 2 3 4 5.
  split.
  - intros Hout. rewrite np_getitem_outside by exact Hout. simpl.
    rewrite length_map, <- (length_map (λ r, row_get r "Feature")) in Hout.
    rewrite np_getitem_outside by exact Hout. split; reflexivity.
  - intros Hneg. rewrite <- np_getitem_negative by exact Hneg. split; [reflexivity|].
    rewrite length_map, <- (length_map (λ r, row_get r "Feature")) in Hneg |- *.
    rewrite <- np_getitem_negative by exact Hneg. reflexivity.
Qed.

Lemma node_accessors_index_bounds_witness :
  (-1 < - Z.of_nat (nnodes example_adapter) ∨ Z.of_nat (nnodes example_adapter) ≤ -1 →
   get_node_split example_adapter (-1) = Raise IndexError
   ∧ get_node_feature example_adapter (-1) = Raise IndexError)
  ∧ (- Z.of_nat (nnodes example_adapter) ≤ -1 < 0 →
     get_node_split example_adapter (-1)
     = get_node_split example_adapter (-1 + Z.of_nat (nnodes example_adapter))
     ∧ get_node_feature example_adapter (-1)
       = get_node_feature example_adapter (-1 + Z.of_nat (nnodes example_adapter))).
Proof.
  apply (node_accessors_index_bounds example_adapter (-1)).
  exists (example_booster "binary:logistic"), 0, []. reflexivity.
Defined.

Lemma get_node_split_row (self : XGBDTree) (i : nat) (row : Row) :
  constructed self →
  tree_to_dataframe self !! i = Some row →
  get_node_split self (Z.of_nat i)
  = Ok (if float_isnan (Split row) then PyInt NO_SPLIT else PyFloat (Split row)).
Proof.
  intros Hc Hrow. unfold get_node_split.
  rewrite get_column_value_Ok by (exact Hc || set_solver). simpl.
  rewrite (np_getitem_nat _ i (PyFloat (Split row)))
    by (rewrite list_lookup_fmap, Hrow; reflexivity).
  simpl. destruct (float_isnan (Split row)); reflexivity.
Qed.

Lemma get_node_feature_row (self : XGBDTree) (i : nat) (row : Row) :
  constructed self →
  tree_to_dataframe self !! i = Some row →
  get_node_feature self (Z.of_nat i)
  = Ok match list_index (feature_names (booster self)) (PyStr (Feature row)) with
       | Ok z => z
       | _ => NO_FEATURE
       end.
Proof.
  intros Hc Hrow. unfold get_node_feature.
  rewrite get_column_value_Ok by (exact Hc || set_solver). simpl.
  rewrite (np_getitem_nat _ i (PyStr (Feature row)))
    by (rewrite list_lookup_fmap, Hrow; reflexivity).
  simpl.
  pose proof (list_index_spec (feature_names (booster self)) (Feature row)) as H.
  destruct (list_index _ _) as [z|e|]; [reflexivity| |contradiction].
  destruct H as [-> _]. reflexivity.
Qed.

Lemma res_mapM_seq {B : Type} (f : nat → res B) (g : nat → B) (n : nat) :
  (∀ i, (i < n)%nat → f i = Ok (g i)) →
  res_mapM f (seq 0 n) = Ok (map g (seq 0 n)).
Proof.
  intros H. apply res_mapM_Ok. intros i Hi. apply H.
  apply elem_of_seq in Hi. lia.
Qed.

(** X6. [get_features] returns one entry per node: entry [i] is what
    [get_node_feature i] returns, [NO_FEATURE] when the row's feature
    name is not among the model's feature names and otherwise a position
    of that name in the list. *)
Theorem get_features_per_node (self : XGBDTree) :
  constructed self →
  ∃ features,
    get_features self = Ok features
    ∧ length features = nnodes self
    ∧ ∀ (i : nat) (row : Row), tree_to_dataframe self !! i = Some row →
        ∃ z, features !! i = Some z
             ∧ get_node_feature self (Z.of_nat i) = Ok z
             ∧ (z = NO_FEATURE ∧ Feature row ∉ feature_names (booster self)
                ∨ 0 ≤ z < Z.of_nat (length (feature_names (booster self)))
                  ∧ feature_names (booster self) !! Z.to_nat z = Some (Feature row)).
Proof.
  intros Hc. unfold get_features.
  set (g := λ i : nat,
         match tree_to_dataframe self !! i with
         | Some row =>
             match list_index (feature_names (booster self)) (PyStr (Feature row)) with
             | Ok z => z
             | _ => NO_FEATURE
             end
         | None => NO_FEATURE
         end).
  rewrite (res_mapM_seq _ g).
  - eexists. split; [reflexivity|].
    split; [rewrite length_map, length_seq; reflexivity|].
    intros i row Hrow. exists (g i).
    pose proof (lookup_lt_Some _ _ _ Hrow) as Hlt.
    split; [rewrite list_lookup_fmap, lookup_seq_lt by exact Hlt; reflexivity|].
    split; [subst g; simpl; rewrite Hrow; apply get_node_feature_row; assumption|].
    subst g. simpl. rewrite Hrow.
    pose proof (list_index_spec (feature_names (booster self)) (Feature row)) as H.
    destruct (list_index _ _) as [z|e|]; [|left; tauto|contradiction].
    right. destruct H as (Hz & Hlook & _). split; [|exact Hlook].
    apply lookup_lt_Some in Hlook. lia.
  - intros i Hi. unfold nnodes in Hi.
    destruct (lookup_lt_is_Some_2 _ _ Hi) as (row & Hrow).
    subst g. simpl. rewrite Hrow. apply get_node_feature_row; assumption.
Qed.

Lemma get_features_per_node_witness :
  ∃ features,
    get_features example_adapter = Ok features
    ∧ length features = nnodes example_adapter
    ∧ ∀ (i : nat) (row : Row), tree_to_dataframe example_adapter !! i = Some row →
        ∃ z, features !! i = Some z
             ∧ get_node_feature example_adapter (Z.of_nat i) = Ok z
             ∧ (z = NO_FEATURE ∧ Feature row ∉ feature_names (booster example_adapter)
                ∨ 0 ≤ z < Z.of_nat (length (feature_names (booster example_adapter)))
                  ∧ feature_names (booster example_adapter) !! Z.to_nat z
                    = Some (Feature row)).
Proof.
  apply (get_features_per_node example_adapter).
  exists (example_booster "binary:logistic"), 0, []. reflexivity.
Defined.

(** X7. The list [get_thresholds] builds (what it hands to [np.array])
    has one entry per node: entry [i] is what [get_node_split i]
    returns, [NO_SPLIT] for a NaN split and the split itself otherwise;
    no entry is NaN. *)
Theorem get_thresholds_per_node (self : XGBDTree) :
  constructed self →
  ∃ thresholds,
    get_thresholds self = Ok thresholds
    ∧ length thresholds = nnodes self
    ∧ (∀ (i : nat) (row : Row), tree_to_dataframe self !! i = Some row →
         ∃ v, thresholds !! i = Some v
              ∧ get_node_split self (Z.of_nat i) = Ok v
              ∧ v = (if float_isnan (Split row) then PyInt NO_SPLIT
                     else PyFloat (Split row)))
    ∧ Forall (λ v, isna v = false) thresholds.
Proof.
  intros Hc. unfold get_thresholds.
  set (g := λ i : nat,
         match tree_to_dataframe self !! i with
         | Some row =>
             if float_isnan (Split row) then PyInt NO_SPLIT else PyFloat (Split row)
         | None => PyInt NO_SPLIT
         end).
  rewrite (res_mapM_seq _ g).
  - eexists. split; [reflexivity|].
    split; [rewrite length_map, length_seq; reflexivity|]. split.
    + intros i row Hrow. exists (g i).
      pose proof (lookup_lt_Some _ _ _ Hrow) as Hlt.
      split; [rewrite list_lookup_fmap, lookup_seq_lt by exact Hlt; reflexivity|].
      subst g. simpl. rewrite Hrow.
      split; [apply get_node_split_row; assumption|reflexivity].
    + apply Forall_fmap, Forall_forall. intros i _. subst g. simpl.
      destruct (tree_to_dataframe self !! i) as [row|]; [|reflexivity].
      destruct (float_isnan (Split row)) eqn:Hnan; [reflexivity|exact Hnan].
  - intros i Hi. unfold nnodes in Hi.
    destruct (lookup_lt_is_Some_2 _ _ Hi) as (row & Hrow).
    subst g. simpl. rewrite Hrow. apply get_node_split_row; assumption.
Qed.

Lemma get_thresholds_per_node_witness :
  ∃ thresholds,
    get_thresholds example_adapter = Ok thresholds
    ∧ length thresholds = nnodes example_adapter
    ∧ (∀ (i : nat) (row : Row), tree_to_dataframe example_adapter !! i = Some row →
         ∃ v, thresholds !! i = Some v
              ∧ get_node_split example_adapter (Z.of_nat i) = Ok v
              ∧ v = (if float_isnan (Split row) then PyInt NO_SPLIT
                     else PyFloat (Split row)))
    ∧ Forall (λ v, isna v = false) thresholds.
Proof.
  apply (get_thresholds_per_node example_adapter).
  exists (example_booster "binary:logistic"), 0, []. reflexivity.
Defined.

(** ** The walk on arbitrary arrays *)

Lemma walk_never_raises (cl cr : list Z) (fuel : nat) (x : Z) (st : walk_state) (e : exn) :
  walk cl cr fuel x st ≠ Raise e.
Proof.
  revert x st. induction fuel as [|fuel IH]; intros x st; [discriminate|].
  cbn [walk]. destruct (negb (x =? ROOT_NODE)); [|discriminate].
  assert (Hleft :
    match first_index cl x with
    | Some parent_node =>
        walk cl cr fuel (Z.of_nat parent_node)
             (appended (scanned st) (Z.of_nat parent_node))
    | None => Ok (scanned st)
    end ≠ Raise e) by (destruct (first_index cl x); [apply IH|discriminate]).
  destruct (match first_index cl x with Some _ => _ | None => _ end) as [st1| |];
    simpl; [|congruence|discriminate].
  destruct (first_index cr x) as [q|]; [apply IH|discriminate].
Qed.

Section WalkChain.
Variables cl cr : list Z.

(** One of the two [try] blocks of [walk], for the array [a]. *)
Lemma walk_step_chain (a : list Z) (fuel : nat) (x : Z) (st0 st1 : walk_state) :
  (∀ p, first_index a x = Some p → parent_rel cl cr (Z.of_nat p) x) →
  (∀ (p : Z) (st st' : walk_state),
     walk cl cr fuel p st = Ok st' →
     ∃ chain, prediction_path st' = prediction_path st ++ chain
              ∧ (∀ k, k ∈ chain → tc (parent_rel cl cr) k p)
              ∧ (searches st' + 2 * count_occ Z.eq_dec (p :: chain) ROOT_NODE
                 = searches st + 2 * length (p :: chain))%nat) →
  match first_index a x with
  | Some parent_node =>
      walk cl cr fuel (Z.of_nat parent_node)
           (appended (scanned st0) (Z.of_nat parent_node))
  | None => Ok (scanned st0)
  end = Ok st1 →
  ∃ chain, prediction_path st1 = prediction_path st0 ++ chain
           ∧ (∀ k, k ∈ chain → tc (parent_rel cl cr) k x)
           ∧ (searches st1 + 2 * count_occ Z.eq_dec chain ROOT_NODE
              = searches st0 + 1 + 2 * length chain)%nat.
Proof.
  intros Hpar IH. destruct (first_index a x) as [p|].
  - intros Hw. destruct (IH _ _ _ Hw) as (chain & Hpath & Hanc & Hcost).
    exists (Z.of_nat p :: chain). split; [|split].
    + rewrite Hpath. simpl. rewrite <- app_assoc. reflexivity.
    + intros k Hk. apply elem_of_cons in Hk as [->|Hk].
      * apply tc_once, Hpar. reflexivity.
      * eapply tc_r; [apply Hanc, Hk|]. apply Hpar. reflexivity.
    + simpl in Hcost |- *. lia.
  - intros [= <-]. exists []. split; [|split].
    + simpl. rewrite app_nil_r. reflexivity.
    + intros k Hk. apply elem_of_nil in Hk. contradiction.
    + simpl. lia.
Qed.

Lemma walk_chain (fuel : nat) :
  ∀ (x : Z) (st st' : walk_state),
    walk cl cr fuel x st = Ok st' →
    ∃ chain, prediction_path st' = prediction_path st ++ chain
             ∧ (∀ k, k ∈ chain → tc (parent_rel cl cr) k x)
             ∧ (searches st' + 2 * count_occ Z.eq_dec (x :: chain) ROOT_NODE
                = searches st + 2 * length (x :: chain))%nat.
Proof.
  induction fuel as [|fuel IH]; intros x st st'; [discriminate|].
  cbn [walk]. destruct (Z.eqb_spec x ROOT_NODE) as [->|Hne]; cbn [negb].
  - intros [= <-]. exists []. split; [rewrite app_nil_r; reflexivity|].
    split; [intros k Hk; apply elem_of_nil in Hk; contradiction|].
    simpl. lia.
  - intros H. apply res_bind_Ok in H as (st1 & H1 & H2).
    apply (walk_step_chain cl fuel x st st1) in H1 as (lc & Hl & Hla & Hlc);
      [|intros p Hp; apply (first_index_parent_l cl cr), Hp|exact IH].
    apply (walk_step_chain cr fuel x st1 st') in H2 as (rc & Hr & Hra & Hrc);
      [|intros p Hp; apply (first_index_parent_r cl cr), Hp|exact IH].
    exists (lc ++ rc). split; [|split].
    + rewrite Hr, Hl, app_assoc. reflexivity.
    + intros k Hk. apply elem_of_app in Hk as [Hk|Hk]; auto.
    + rewrite count_occ_cons_neq by exact Hne.
      rewrite count_occ_app. simpl. rewrite length_app. lia.
Qed.

Lemma ancestor_is_position (k x : Z) :
  tc (parent_rel cl cr) k x →
  ∃ i : nat, k = Z.of_nat i ∧ (i < length cl `max` length cr)%nat.
Proof.
  intros H. assert (Hfirst : ∃ y, parent_rel cl cr k y)
    by (inversion H; eauto).
  destruct Hfirst as (y & i & -> & [Hi|Hi]); exists i; (split; [reflexivity|]);
    apply lookup_lt_Some in Hi; lia.
Qed.
End WalkChain.

(** X8. On arrays without a cycle, trees or not, the walk returns from
    any starting id: the path starts with that id, every further entry
    is an ancestor of it and a position of the arrays, and the walk has
    made two scans for every entry of the path that is not the root. *)
Theorem leaf_prediction_path_shape (self : XGBDTree) (fuel : nat) (leaf : Z) :
  acyclic (children_left self) (children_right self) →
  (length (children_left self) `max` length (children_right self) < fuel)%nat →
  ∃ st chain,
    walk_from_leaf self fuel leaf = Ok st
    ∧ prediction_path st = leaf :: chain
    ∧ (∀ k, k ∈ chain →
            tc (parent_rel (children_left self) (children_right self)) k leaf
            ∧ 0 ≤ k < Z.of_nat (length (children_left self)
                                 `max` length (children_right self)))
    ∧ (searches st + 2 * count_occ Z.eq_dec (prediction_path st) ROOT_NODE
       = 2 * length (prediction_path st))%nat.
Proof.
  intros Hac Hfuel. unfold walk_from_leaf.
  destruct (walk_returns (children_left self) (children_right self)
              (length (children_left self) `max` length (children_right self))
              ltac:(lia) ltac:(lia) Hac fuel leaf
              {| prediction_path := [leaf]; searches := 0 |} Hfuel) as (st & Hst).
  destruct (walk_chain _ _ _ _ _ _ Hst) as (chain & Hpath & Hanc & Hcost).
  exists st, chain. split; [exact Hst|]. split; [exact Hpath|]. split.
  - intros k Hk. split; [apply Hanc, Hk|].
    destruct (ancestor_is_position _ _ _ _ (Hanc k Hk)) as (i & -> & Hi). lia.
  - rewrite Hpath. simpl in Hcost. exact Hcost.
Qed.

Lemma leaf_prediction_path_shape_witness :
  ∃ st chain,
    walk_from_leaf example_adapter 4 2 = Ok st
    ∧ prediction_path st = 2 :: chain
    ∧ (∀ k, k ∈ chain →
            tc (parent_rel (children_left example_adapter)
                           (children_right example_adapter)) k 2
            ∧ 0 ≤ k < Z.of_nat (length (children_left example_adapter)
                                 `max` length (children_right example_adapter)))
    ∧ (searches st + 2 * count_occ Z.eq_dec (prediction_path st) ROOT_NODE
       = 2 * length (prediction_path st))%nat.
Proof.
  apply (leaf_prediction_path_shape example_adapter 4 2).
  - exact (wf_acyclic _ _ example_well_formed).
  - simpl. lia.
Defined.

(** X9. An id other than the root that occurs in neither array has no
    parent: its path is just itself, found after two scans, and the root
    is not on it. *)
Theorem orphan_leaf_path (self : XGBDTree) (fuel : nat) (leaf : Z) :
  leaf ≠ ROOT_NODE →
  leaf ∉ children_left self →
  leaf ∉ children_right self →
  (0 < fuel)%nat →
  walk_from_leaf self fuel leaf = Ok {| prediction_path := [leaf]; searches := 2 |}
  ∧ _get_leaf_prediction_path self fuel leaf = Ok [leaf]
  ∧ ROOT_NODE ∉ [leaf].
Proof.
  intros Hne Hl Hr Hfuel. destruct fuel as [|fuel]; [lia|].
  assert (Hw : walk_from_leaf self (S fuel) leaf
               = Ok {| prediction_path := [leaf]; searches := 2 |}).
  { unfold walk_from_leaf. cbn [walk].
    replace (negb (leaf =? ROOT_NODE)) with true
      by (symmetry; apply negb_true_iff, Z.eqb_neq, Hne).
    replace (first_index (children_left self) leaf) with (@None nat)
      by (symmetry; apply first_index_None, (count_occ_not_In Z.eq_dec);
          rewrite <- list_elem_of_In; exact Hl).
    replace (first_index (children_right self) leaf) with (@None nat)
      by (symmetry; apply first_index_None, (count_occ_not_In Z.eq_dec);
          rewrite <- list_elem_of_In; exact Hr).
    reflexivity. }
  split; [exact Hw|]. split.
  - unfold _get_leaf_prediction_path. rewrite Hw. reflexivity.
  - intros H. apply list_elem_of_singleton in H. congruence.
Qed.

Lemma orphan_leaf_path_witness :
  walk_from_leaf example_adapter 1 7 = Ok {| prediction_path := [7]; searches := 2 |}
  ∧ _get_leaf_prediction_path example_adapter 1 7 = Ok [7]
  ∧ ROOT_NODE ∉ [7].
Proof.
  apply (orphan_leaf_path example_adapter 1 7).
  - discriminate.
  - simpl. intros H. repeat (apply elem_of_cons in H as [H|H]; [discriminate H|]).
    apply elem_of_nil in H. exact H.
  - simpl. intros H. repeat (apply elem_of_cons in H as [H|H]; [discriminate H|]).
    apply elem_of_nil in H. exact H.
  - lia.
Defined.

(** ** Cycles *)

Lemma walk_returns_at_parent (cl cr : list Z) (fuel : nat) (p c : Z)
    (st st' : walk_state) :
  first_parent cl cr p c →
  walk cl cr fuel c st = Ok st' →
  ∃ fuel' st0 st1, (fuel' < fuel)%nat ∧ walk cl cr fuel' p st0 = Ok st1.
Proof.
  intros (Hne & i & -> & Hi). destruct fuel as [|fuel]; [discriminate|].
  cbn [walk].
  replace (negb (c =? ROOT_NODE)) with true
    by (symmetry; apply negb_true_iff, Z.eqb_neq, Hne).
  intros H. apply res_bind_Ok in H as (st1 & H1 & H2).
  destruct Hi as [Hi|Hi].
  - rewrite Hi in H1. exists fuel. eauto.
  - rewrite Hi in H2. exists fuel. eauto.
Qed.

Lemma walk_returns_at_ancestor (cl cr : list Z) (x y : Z) :
  tc (first_parent cl cr) x y →
  ∀ (fuel : nat) (st st' : walk_state),
    walk cl cr fuel y st = Ok st' →
    ∃ fuel' st0 st1, (fuel' < fuel)%nat ∧ walk cl cr fuel' x st0 = Ok st1.
Proof.
  induction 1 as [x y Hxy|x y z Hxy _ IH]; intros fuel st st' Hw.
  - eapply walk_returns_at_parent; eassumption.
  - destruct (IH _ _ _ Hw) as (f1 & s0 & s1 & Hlt & Hy).
    destruct (walk_returns_at_parent _ _ _ _ _ _ _ Hxy Hy) as (f2 & t0 & t1 & Hlt2 & Hx).
    exists f2, t0, t1. split; [lia|exact Hx].
Qed.

Lemma route_samples_out_of_fuel (self : XGBDTree) (fuel : nat) (x : Z)
    (leaves : list Z) (first : nat) (m : gmap Z (list nat)) :
  x ∈ leaves →
  _get_leaf_prediction_path self fuel x = OutOfFuel →
  route_samples self fuel first leaves m = OutOfFuel.
Proof.
  revert first m. induction leaves as [|leaf leaves IH]; intros first m Hx Hout.
  - apply elem_of_nil in Hx. contradiction.
  - cbn [route_samples].
    destruct (_get_leaf_prediction_path self fuel leaf) as [path|e|] eqn:Hleaf;
      simpl; [| |reflexivity].
    + apply elem_of_cons in Hx as [->|Hx]; [congruence|]. apply IH; assumption.
    + exfalso. unfold _get_leaf_prediction_path, walk_from_leaf in Hleaf.
      destruct (walk _ _ fuel leaf _) as [st|e'|] eqn:Hw; simpl in Hleaf;
        try discriminate.
      eapply walk_never_raises, Hw.
Qed.

(** X10. If an id lies on a cycle of the parents the walk goes to, the
    walk from it exhausts every depth allowance; so does
    [get_node_samples] when a sample is assigned that id. Such arrays
    are not acyclic. *)
Theorem walk_on_cycle_never_returns (self : XGBDTree) (x : Z) :
  tc (first_parent (children_left self) (children_right self)) x x →
  (∀ (fuel : nat) (st : walk_state),
     walk (children_left self) (children_right self) fuel x st = OutOfFuel)
  ∧ (∀ fuel : nat, _get_leaf_prediction_path self fuel x = OutOfFuel)
  ∧ (∀ (leaves : list Z) (fuel : nat),
       np_column (predict_pred_leaf (booster self) (x_data self)) (tree_index self)
       = Ok leaves →
       x ∈ leaves → get_node_samples self fuel = OutOfFuel)
  ∧ ¬ acyclic (children_left self) (children_right self).
Proof.
  intros Hcycle.
  assert (Hnever : ∀ (fuel : nat) (st : walk_state),
             walk (children_left self) (children_right self) fuel x st = OutOfFuel).
  { intros fuel. induction (lt_wf fuel) as [fuel _ IH]. intros st.
    destruct (walk _ _ fuel x st) as [st'|e|] eqn:Hw; [| |reflexivity].
    - destruct (walk_returns_at_ancestor _ _ _ _ Hcycle _ _ _ Hw)
        as (fuel' & st0 & st1 & Hlt & Hw').
      rewrite (IH fuel' Hlt st0) in Hw'. discriminate.
    - exfalso. eapply walk_never_raises, Hw. }
  assert (Hpath : ∀ fuel : nat, _get_leaf_prediction_path self fuel x = OutOfFuel).
  { intros fuel. unfold _get_leaf_prediction_path, walk_from_leaf.
    rewrite Hnever. reflexivity. }
  split; [exact Hnever|]. split; [exact Hpath|]. split.
  - intros leaves fuel Hcol Hx. unfold get_node_samples. rewrite Hcol. simpl.
    apply (route_samples_out_of_fuel self fuel x); [exact Hx|apply Hpath].
  - intros Hac. apply (Hac x).
    eapply tc_congruence with (f := id); [|exact Hcycle].
    intros p c (_ & i & -> & [Hi|Hi]).
    + apply (first_index_parent_l _ (children_right self)) in Hi as [H _]. exact H.
    + apply (first_index_parent_r (children_left self)) in Hi as [H _]. exact H.
Qed.

Lemma walk_on_cycle_never_returns_witness :
  (∀ (fuel : nat) (st : walk_state),
     walk (children_left cyclic_adapter) (children_right cyclic_adapter) fuel 1 st
     = OutOfFuel)
  ∧ (∀ fuel : nat, _get_leaf_prediction_path cyclic_adapter fuel 1 = OutOfFuel)
  ∧ (∀ (leaves : list Z) (fuel : nat),
       np_column (predict_pred_leaf (booster cyclic_adapter) (x_data cyclic_adapter))
                 (tree_index cyclic_adapter)
       = Ok leaves →
       1 ∈ leaves → get_node_samples cyclic_adapter fuel = OutOfFuel)
  ∧ ¬ acyclic (children_left cyclic_adapter) (children_right cyclic_adapter).
Proof.
  apply (walk_on_cycle_never_returns cyclic_adapter 1).
  apply tc_once. split; [discriminate|].
  exists 1%nat. split; [reflexivity|]. left. reflexivity.
Defined.

(** ** Paths in a tree, exactly *)

Lemma count_one_unique (l : list Z) (x : Z) (i j : nat) :
  count_occ Z.eq_dec l x = 1%nat → l !! i = Some x → l !! j = Some x → i = j.
Proof.
  revert i j. induction l as [|y l IH]; intros i j Hc Hi Hj; [discriminate Hi|].
  destruct (Z.eq_dec y x) as [->|Hne].
  - rewrite count_occ_cons_eq in Hc by reflexivity.
    assert (Hnot : ∀ k, l !! k = Some x → False).
    { intros k Hk. apply list_elem_of_lookup_2, list_elem_of_In in Hk.
      apply (count_occ_In Z.eq_dec) in Hk. lia. }
    destruct i as [|i]; [|exfalso; eapply Hnot, Hi].
    destruct j as [|j]; [reflexivity|exfalso; eapply Hnot, Hj].
  - rewrite count_occ_cons_neq in Hc by exact Hne.
    destruct i as [|i]; [simpl in Hi; congruence|].
    destruct j as [|j]; [simpl in Hj; congruence|].
    f_equal. apply IH; assumption.
Qed.

Lemma lookup_count_pos (l : list Z) (x : Z) (i : nat) :
  l !! i = Some x → (0 < count_occ Z.eq_dec l x)%nat.
Proof.
  intros H. apply list_elem_of_lookup_2, list_elem_of_In in H.
  apply (count_occ_In Z.eq_dec) in H. lia.
Qed.

Lemma tc_last {A : Type} (R : relation A) (x z : A) :
  tc R x z → ∃ y, R y z ∧ (x = y ∨ tc R x y).
Proof.
  induction 1 as [x z Hxz|x y z Hxy _ (w & Hwz & Hw)].
  - exists x. auto.
  - exists w. split; [exact Hwz|]. right.
    destruct Hw as [->|Hw]; [apply tc_once, Hxy|eapply tc_l; eassumption].
Qed.

Section TreePaths.
Variables cl cr : list Z.
Hypothesis tree : well_formed_tree cl cr.

Lemma parent_unique (i : nat) (y1 y2 : Z) :
  (0 < i < length cl)%nat →
  parent_rel cl cr y1 (Z.of_nat i) → parent_rel cl cr y2 (Z.of_nat i) → y1 = y2.
Proof.
  intros Hi (a & -> & Ha) (b & -> & Hb).
  pose proof (wf_one_parent _ _ tree i Hi) as Hone. unfold child_refs in Hone.
  f_equal.
  destruct Ha as [Ha|Ha]; destruct Hb as [Hb|Hb];
    pose proof (lookup_count_pos _ _ _ Ha);
    pose proof (lookup_count_pos _ _ _ Hb).
  - apply (count_one_unique cl (Z.of_nat i)); [lia|assumption..].
  - lia.
  - lia.
  - apply (count_one_unique cr (Z.of_nat i)); [lia|assumption..].
Qed.

Lemma parent_is_position (y x : Z) :
  parent_rel cl cr y x → ∃ i : nat, y = Z.of_nat i ∧ (i < length cl)%nat.
Proof.
  pose proof (wf_same_length _ _ tree) as Hlen.
  intros (i & -> & [Hi|Hi]); exists i; (split; [reflexivity|]);
    apply lookup_lt_Some in Hi; lia.
Qed.

Lemma root_no_parent (y : Z) : ¬ parent_rel cl cr y ROOT_NODE.
Proof.
  intros Hpar. destruct (parent_is_position _ _ Hpar) as (i & -> & Hi).
  destruct (decide (i = 0%nat)) as [->|Hne].
  - apply (wf_acyclic _ _ tree 0). apply tc_once. exact Hpar.
  - destruct (walk_returns_in_tree cl cr tree (S (length cl)) (Z.of_nat i)
                {| prediction_path := []; searches := 0 |}) as (st' & Hst'); [lia|].
    destruct (walk_reaches_root_once cl cr tree _ _ _ _ Hi Hst')
      as (chain & Hpath & Hcount).
    destruct (walk_chain cl cr _ _ _ _ Hst') as (chain' & Hpath' & Hanc & _).
    simpl in Hpath, Hpath'. rewrite Hpath in Hpath'. subst chain'.
    destruct (decide (i = 0%nat)); [contradiction|].
    assert (Hin : ROOT_NODE ∈ chain).
    { apply list_elem_of_In, (count_occ_In Z.eq_dec). lia. }
    apply (wf_acyclic _ _ tree ROOT_NODE).
    eapply tc_r; [apply Hanc, Hin|exact Hpar].
Qed.

(** In a tree the walk from a valid node appends exactly its ancestors,
    each once, the root last, at two scans per node left behind. *)
Lemma walk_in_tree_chain (fuel : nat) :
  ∀ (p : nat) (st st' : walk_state),
    (p < length cl)%nat →
    walk cl cr fuel (Z.of_nat p) st = Ok st' →
    ∃ chain,
      prediction_path st' = prediction_path st ++ chain
      ∧ NoDup (Z.of_nat p :: chain)
      ∧ (∀ k, k ∈ chain ↔ tc (parent_rel cl cr) k (Z.of_nat p))
      ∧ last (Z.of_nat p :: chain) = Some ROOT_NODE
      ∧ searches st' = (searches st + 2 * length chain)%nat.
Proof.
  pose proof (wf_same_length _ _ tree) as Hlen.
  induction fuel as [|fuel IH]; intros p st st' Hp; [discriminate|].
  cbn [walk]. destruct (decide (p = 0%nat)) as [->|Hne].
  - simpl. intros [= <-]. exists []. rewrite app_nil_r.
    split; [reflexivity|]. split; [apply NoDup_singleton|]. split; [|split].
    + intros k. split; [intros H; apply elem_of_nil in H; contradiction|].
      intros H. apply tc_last in H as (y & Hy & _).
      exfalso. eapply root_no_parent, Hy.
    + reflexivity.
    + simpl. lia.
  - replace (negb (Z.of_nat p =? ROOT_NODE)) with true
      by (symmetry; apply negb_true_iff, Z.eqb_neq; unfold ROOT_NODE; lia).
    pose proof (wf_one_parent _ _ tree p ltac:(lia)) as Hone.
    unfold child_refs in Hone.
    assert (Hstep : ∀ (q : nat) (st0 st1 : walk_state),
               (q < length cl)%nat →
               parent_rel cl cr (Z.of_nat q) (Z.of_nat p) →
               walk cl cr fuel (Z.of_nat q) (appended st0 (Z.of_nat q)) = Ok st1 →
               ∃ chain,
                 prediction_path st1 = prediction_path st0 ++ chain
                 ∧ NoDup (Z.of_nat p :: chain)
                 ∧ (∀ k, k ∈ chain ↔ tc (parent_rel cl cr) k (Z.of_nat p))
                 ∧ last (Z.of_nat p :: chain) = Some ROOT_NODE
                 ∧ (searches st1 + 2 = searches st0 + 2 * length chain)%nat).
    { intros q st0 st1 Hq Hpar Hw.
      destruct (IH q _ _ Hq Hw) as (chain & Hpath & Hnd & Hiff & Hlast & Hcost).
      exists (Z.of_nat q :: chain). split; [|split; [|split; [|split]]].
      - rewrite Hpath. simpl. rewrite <- app_assoc. reflexivity.
      - apply NoDup_cons. split; [|exact Hnd].
        intros Hin. apply (wf_acyclic _ _ tree (Z.of_nat p)).
        apply elem_of_cons in Hin as [Heq|Hin].
        + rewrite Heq at 1. apply tc_once, Hpar.
        + eapply tc_r; [apply Hiff, Hin|exact Hpar].
      - intros k. split.
        + intros Hk. apply elem_of_cons in Hk as [->|Hk].
          * apply tc_once, Hpar.
          * eapply tc_r; [apply Hiff, Hk|exact Hpar].
        + intros Hk. apply tc_last in Hk as (y & Hy & Hk).
          assert (y = Z.of_nat q)
            by (apply (parent_unique p); [lia|exact Hy|exact Hpar]).
          subst y. destruct Hk as [->|Hk]; [left|right; apply Hiff, Hk].
      - exact Hlast.
      - simpl in Hcost |- *. lia. }
    destruct (first_index cl (Z.of_nat p)) as [ql|] eqn:Hl;
      destruct (first_index cr (Z.of_nat p)) as [qr|] eqn:Hr.
    + exfalso.
      assert (count_occ Z.eq_dec cl (Z.of_nat p) ≠ 0%nat)
        by (intros H0; apply first_index_None in H0; congruence).
      assert (count_occ Z.eq_dec cr (Z.of_nat p) ≠ 0%nat)
        by (intros H0; apply first_index_None in H0; congruence).
      lia.
    + intros H. apply res_bind_Ok in H as (st1 & H1 & [= <-]).
      apply first_index_parent_l with (cr := cr) in Hl as [Hpar Hql].
      destruct (Hstep ql (scanned st) st1 Hql Hpar H1)
        as (chain & Hpath & Hnd & Hiff & Hlast & Hcost).
      exists chain. simpl in *. repeat split; try assumption; try apply Hiff. lia.
    + intros H. apply res_bind_Ok in H as (st1 & [= <-] & H2).
      apply first_index_parent_r with (cl := cl) in Hr as [Hpar Hqr].
      destruct (Hstep qr (scanned (scanned st)) st' ltac:(lia) Hpar H2)
        as (chain & Hpath & Hnd & Hiff & Hlast & Hcost).
      exists chain. simpl in *. repeat split; try assumption; try apply Hiff. lia.
    + exfalso.
      apply first_index_None in Hl. apply first_index_None in Hr. lia.
Qed.
End TreePaths.

Lemma bounded_NoDup_length_Z (l : list Z) (n : nat) :
  NoDup l → (∀ k, k ∈ l → 0 ≤ k < Z.of_nat n) → (length l ≤ n)%nat.
Proof.
  intros Hnd Hpos. rewrite <- (length_fmap Z.to_nat).
  apply bounded_NoDup_length.
  - apply NoDup_fmap_2_strong; [|exact Hnd].
    intros x y Hx Hy Heq. apply Hpos in Hx. apply Hpos in Hy. lia.
  - intros i Hi. apply list_elem_of_fmap in Hi as (k & -> & Hk).
    apply Hpos in Hk. lia.
Qed.

(** X11. In a tree the path of a valid node id holds that id first, then
    exactly its ancestors, each once, the root last; it is at most
    [nnodes] long and costs two scans per entry but the root. *)
Theorem leaf_path_exactly_ancestors (self : XGBDTree) (fuel : nat) (leaf : Z) :
  well_formed_tree (children_left self) (children_right self) →
  0 ≤ leaf < Z.of_nat (length (children_left self)) →
  (length (children_left self) < fuel)%nat →
  ∃ st path,
    walk_from_leaf self fuel leaf = Ok st
    ∧ prediction_path st = path
    ∧ _get_leaf_prediction_path self fuel leaf = Ok path
    ∧ NoDup path
    ∧ (∀ k, k ∈ path ↔
            k = leaf
            ∨ tc (parent_rel (children_left self) (children_right self)) k leaf)
    ∧ head path = Some leaf
    ∧ last path = Some ROOT_NODE
    ∧ searches st = (2 * (length path - 1))%nat
    ∧ (length path ≤ length (children_left self))%nat.
Proof.
  intros Htree Hleaf Hfuel.
  pose proof (wf_same_length _ _ Htree) as Hlen.
  destruct (walk_returns_in_tree _ _ Htree fuel leaf
              {| prediction_path := [leaf]; searches := 0 |} Hfuel) as (st & Hst).
  assert (Hnat : leaf = Z.of_nat (Z.to_nat leaf)) by lia.
  pose proof Hst as Hst0. rewrite Hnat in Hst at 1.
  destruct (walk_in_tree_chain _ _ Htree fuel (Z.to_nat leaf) _ _ ltac:(lia) Hst)
    as (chain & Hpath & Hnd & Hiff & Hlast & Hcost).
  rewrite <- Hnat in Hnd, Hiff, Hlast. simpl in Hpath, Hcost.
  exists st, (leaf :: chain).
  split; [exact Hst0|]. split; [exact Hpath|].
  split; [unfold _get_leaf_prediction_path, walk_from_leaf;
          rewrite Hst0; simpl; rewrite Hpath; reflexivity|].
  split; [exact Hnd|]. split.
  { intros k. rewrite elem_of_cons, Hiff. reflexivity. }
  split; [reflexivity|]. split; [exact Hlast|]. split; [simpl; lia|].
  apply bounded_NoDup_length_Z; [exact Hnd|].
  intros k Hk. apply elem_of_cons in Hk as [->|Hk]; [exact Hleaf|].
  apply Hiff in Hk.
  destruct (ancestor_is_position _ _ _ _ Hk) as (i & -> & Hi). lia.
Qed.

Lemma leaf_path_exactly_ancestors_witness :
  ∃ st path,
    walk_from_leaf example_adapter 4 2 = Ok st
    ∧ prediction_path st = path
    ∧ _get_leaf_prediction_path example_adapter 4 2 = Ok path
    ∧ NoDup path
    ∧ (∀ k, k ∈ path ↔
            k = 2
            ∨ tc (parent_rel (children_left example_adapter)
                             (children_right example_adapter)) k 2)
    ∧ head path = Some 2
    ∧ last path = Some ROOT_NODE
    ∧ searches st = (2 * (length path - 1))%nat
    ∧ (length path ≤ length (children_left example_adapter))%nat.
Proof.
  apply (leaf_path_exactly_ancestors example_adapter 4 2).
  - exact example_well_formed.
  - simpl. lia.
  - simpl. lia.
Defined.

(** ** The sample map *)

Lemma routed_to_sublist (paths : list (list Z)) (first : nat) (k : Z) :
  Forall NoDup paths →
  sublist (routed_to paths first k) (seq first (length paths)).
Proof.
  intros H. revert first. induction H as [|p paths Hp _ IH]; intros first.
  - constructor.
  - rewrite routed_to_cons. cbn [length seq].
    assert (Hc : (count_occ Z.eq_dec p k ≤ 1)%nat).
    { apply NoDup_ListNoDup in Hp.
      apply (proj1 (NoDup_count_occ Z.eq_dec p) Hp). }
    destruct (count_occ Z.eq_dec p k) as [|[|c]]; [| |lia]; simpl.
    + apply sublist_cons, IH.
    + apply sublist_skip, IH.
Qed.

Lemma record_path_values (path : list Z) (m : gmap Z (list nat)) (i : nat) :
  (∀ k l, m !! k = Some l → l ≠ []) →
  (∀ k l, record_path m i path !! k = Some l → l ≠ [])
  ∧ (∀ k, is_Some (record_path m i path !! k) ↔ is_Some (m !! k) ∨ k ∈ path).
Proof.
  revert m. induction path as [|a path IH]; intros m Hm; cbn [record_path].
  - split; [exact Hm|]. intros k. split; [auto|].
    intros [H|H]; [exact H|apply elem_of_nil in H; contradiction].
  - destruct (IH (<[a := m !!! a ++ [i]]> m)) as [Hv Hd].
    { intros k l. rewrite lookup_insert. case_decide.
      - intros [= <-] Hnil. apply app_eq_nil in Hnil as [_ Hnil]. discriminate.
      - apply Hm. }
    split; [exact Hv|]. intros k. rewrite Hd, lookup_insert, elem_of_cons.
    case_decide as Hak.
    + subst. split; [auto|]. intros _. left. eauto.
    + split; intros [H|H]; auto. destruct H as [->|H]; [congruence|auto].
Qed.

Lemma route_samples_values (self : XGBDTree) (fuel : nat) (leaves : list Z)
    (paths : list (list Z)) :
  Forall2 (λ leaf path, _get_leaf_prediction_path self fuel leaf = Ok path)
          leaves paths →
  ∀ (first : nat) (m m' : gmap Z (list nat)),
    (∀ k l, m !! k = Some l → l ≠ []) →
    route_samples self fuel first leaves m = Ok m' →
    (∀ k l, m' !! k = Some l → l ≠ [])
    ∧ (∀ k, is_Some (m' !! k) ↔
            is_Some (m !! k) ∨ ∃ path, path ∈ paths ∧ k ∈ path).
Proof.
  induction 1 as [|leaf path leaves paths Hpath _ IH]; intros first m m' Hm.
  - intros [= <-]. split; [exact Hm|]. intros k. split; [auto|].
    intros [H|(p & Hp & _)]; [exact H|apply elem_of_nil in Hp; contradiction].
  - cbn [route_samples]. rewrite Hpath. simpl. intros Hr.
    destruct (record_path_values path m first Hm) as [Hv Hd].
    destruct (IH _ _ _ Hv Hr) as [Hv' Hd'].
    split; [exact Hv'|]. intros k. rewrite Hd', Hd. split.
    + intros [[H|H]|(p & Hp & Hk)]; auto.
      * right. exists path. split; [left|exact H].
      * right. exists p. split; [right; exact Hp|exact Hk].
    + intros [H|(p & Hp & Hk)]; [auto|].
      apply elem_of_cons in Hp as [->|Hp]; [auto|]. right. eauto.
Qed.

(** X12. On arrays without a cycle [get_node_samples] returns a map in
    which every sample is listed under its leaf id, no key has an empty
    list, every listed sample is a sample index, and every key is a leaf
    id of some sample or a position of the arrays. *)
Theorem get_node_samples_map_shape (self : XGBDTree) (leaves : list Z) (fuel : nat) :
  acyclic (children_left self) (children_right self) →
  np_column (predict_pred_leaf (booster self) (x_data self)) (tree_index self)
  = Ok leaves →
  (length (children_left self) `max` length (children_right self) < fuel)%nat →
  ∃ m, get_node_samples self fuel = Ok m
       ∧ (∀ (i : nat) (leaf : Z), leaves !! i = Some leaf → i ∈ m !!! leaf)
       ∧ (∀ (k : Z) (l : list nat), m !! k = Some l →
            l ≠ [] ∧ ∀ i, i ∈ l → (i < length leaves)%nat)
       ∧ (∀ k : Z, is_Some (m !! k) →
            k ∈ leaves
            ∨ 0 ≤ k < Z.of_nat (length (children_left self)
                                 `max` length (children_right self))).
Proof.
  intros Hac Hcol Hfuel. unfold get_node_samples. rewrite Hcol. simpl.
  set (n := (length (children_left self) `max` length (children_right self))%nat) in *.
  assert (Hex : ∃ paths,
    Forall2 (λ leaf path,
               _get_leaf_prediction_path self fuel leaf = Ok path
               ∧ leaf ∈ path
               ∧ ∀ k, k ∈ path → k = leaf ∨ 0 ≤ k < Z.of_nat n) leaves paths).
  { apply Forall_exists_Forall2, Forall_forall. intros leaf _.
    destruct (walk_returns (children_left self) (children_right self) n
                ltac:(lia) ltac:(lia) Hac fuel leaf
                {| prediction_path := [leaf]; searches := 0 |} Hfuel) as (st & Hst).
    destruct (walk_chain _ _ _ _ _ _ Hst) as (chain & Hpath & Hanc & _).
    simpl in Hpath. exists (leaf :: chain). split; [|split].
    - unfold _get_leaf_prediction_path, walk_from_leaf. rewrite Hst. simpl.
      rewrite Hpath. reflexivity.
    - left.
    - intros k Hk. apply elem_of_cons in Hk as [->|Hk]; [left; reflexivity|].
      right. destruct (ancestor_is_position _ _ _ _ (Hanc k Hk)) as (i & -> & Hi).
      subst n. lia. }
  destruct Hex as (paths & Hpaths).
  assert (Hpaths' : Forall2 (λ leaf path,
                      _get_leaf_prediction_path self fuel leaf = Ok path) leaves paths).
  { eapply Forall2_impl; [exact Hpaths|]. intros leaf path H. apply H. }
  destruct (route_samples_spec self fuel leaves paths Hpaths' 0%nat ∅)
    as (m & Hm & Hk).
  destruct (route_samples_values self fuel leaves paths Hpaths' 0%nat ∅ m)
    as [Hvals Hdom]; [intros k l H; rewrite lookup_empty in H; discriminate|exact Hm|].
  exists m. split; [exact Hm|]. split; [|split].
  - intros i leaf Hi. rewrite Hk, lookup_total_empty. simpl.
    apply routed_to_elem.
    destruct (Forall2_lookup_l _ _ _ _ _ Hpaths Hi) as (path & Hpath & _ & Hin & _).
    exists i, path. auto.
  - intros k l Hl. split; [eapply Hvals, Hl|]. intros i Hi.
    assert (Hl' : m !!! k = l) by (rewrite lookup_total_alt, Hl; reflexivity).
    rewrite <- Hl', Hk, lookup_total_empty in Hi. simpl in Hi.
    apply routed_to_elem in Hi as (j & path & -> & Hj & _).
    apply lookup_lt_Some in Hj. rewrite (Forall2_length _ _ _ Hpaths). lia.
  - intros k Hsome. apply Hdom in Hsome as [Hsome|(path & Hpath & Hin)].
    + rewrite lookup_empty in Hsome. destruct Hsome as [? Hsome]. discriminate.
    + apply list_elem_of_lookup in Hpath as (j & Hj).
      destruct (Forall2_lookup_r _ _ _ _ _ Hpaths Hj) as (leaf & Hleaf & _ & _ & Hpos).
      destruct (Hpos k Hin) as [->|Hrange]; [left|right; exact Hrange].
      eapply list_elem_of_lookup_2, Hleaf.
Qed.

Lemma get_node_samples_map_shape_witness :
  ∃ m, get_node_samples example_adapter 4 = Ok m
       ∧ (∀ (i : nat) (leaf : Z), [1; 2; 1] !! i = Some leaf → i ∈ m !!! leaf)
       ∧ (∀ (k : Z) (l : list nat), m !! k = Some l →
            l ≠ [] ∧ ∀ i, i ∈ l → (i < length [1; 2; 1])%nat)
       ∧ (∀ k : Z, is_Some (m !! k) →
            k ∈ [1; 2; 1]
            ∨ 0 ≤ k < Z.of_nat (length (children_left example_adapter)
                                 `max` length (children_right example_adapter))).
Proof.
  apply (get_node_samples_map_shape example_adapter [1; 2; 1] 4).
  - exact (wf_acyclic _ _ example_well_formed).
  - reflexivity.
  - simpl. lia.
Defined.

Lemma tree_paths (self : XGBDTree) (leaves : list Z) (fuel : nat) :
  well_formed_tree (children_left self) (children_right self) →
  Forall (λ leaf, 0 ≤ leaf < Z.of_nat (length (children_left self))) leaves →
  (length (children_left self) < fuel)%nat →
  ∃ paths,
    Forall2 (λ leaf path,
               _get_leaf_prediction_path self fuel leaf = Ok path
               ∧ NoDup path
               ∧ (∀ k, k ∈ path ↔
                       k = leaf
                       ∨ tc (parent_rel (children_left self) (children_right self))
                            k leaf)
               ∧ ROOT_NODE ∈ path) leaves paths.
Proof.
  intros Htree Hleaves Hfuel.
  apply Forall_exists_Forall2. eapply Forall_impl; [exact Hleaves|].
  intros leaf Hleaf. cbv beta in Hleaf.
  destruct (walk_returns_in_tree _ _ Htree fuel leaf
              {| prediction_path := [leaf]; searches := 0 |} Hfuel) as (st & Hst).
  assert (Hnat : leaf = Z.of_nat (Z.to_nat leaf)) by lia.
  pose proof Hst as Hst0. rewrite Hnat in Hst at 1.
  destruct (walk_in_tree_chain _ _ Htree fuel (Z.to_nat leaf) _ _ ltac:(lia) Hst)
    as (chain & Hpath & Hnd & Hiff & Hlast & _).
  rewrite <- Hnat in Hnd, Hiff, Hlast. simpl in Hpath.
  exists (leaf :: chain). split; [|split; [exact Hnd|split]].
  - unfold _get_leaf_prediction_path, walk_from_leaf. rewrite Hst0. simpl.
    rewrite Hpath. reflexivity.
  - intros k. rewrite elem_of_cons, Hiff. reflexivity.
  - apply last_Some_elem_of, Hlast.
Qed.

(** X13. In a tree, a sample is listed under a node exactly when the
    node is the sample's leaf or an ancestor of it; every list is a
    sublist of [0 .. N-1], so it is increasing and free of repeats. *)
Theorem get_node_samples_ancestors (self : XGBDTree) (leaves : list Z) (fuel : nat) :
  well_formed_tree (children_left self) (children_right self) →
  np_column (predict_pred_leaf (booster self) (x_data self)) (tree_index self)
  = Ok leaves →
  Forall (λ leaf, 0 ≤ leaf < Z.of_nat (length (children_left self))) leaves →
  (length (children_left self) < fuel)%nat →
  ∃ m, get_node_samples self fuel = Ok m
       ∧ (∀ (i : nat) (k : Z),
            i ∈ m !!! k ↔
            ∃ leaf, leaves !! i = Some leaf
                    ∧ (k = leaf
                       ∨ tc (parent_rel (children_left self) (children_right self))
                            k leaf))
       ∧ (∀ k : Z, sublist (m !!! k) (seq 0 (length leaves))).
Proof.
  intros Htree Hcol Hleaves Hfuel. unfold get_node_samples. rewrite Hcol. simpl.
  destruct (tree_paths self leaves fuel Htree Hleaves Hfuel) as (paths & Hpaths).
  destruct (route_samples_spec self fuel leaves paths) with (first := 0%nat)
    (m := (∅ : gmap Z (list nat))) as (m & Hm & Hk).
  { eapply Forall2_impl; [exact Hpaths|]. intros leaf path H. apply H. }
  exists m. split; [exact Hm|]. split.
  - intros i k. rewrite Hk, lookup_total_empty. simpl. rewrite routed_to_elem. split.
    + intros (j & path & -> & Hj & Hin). simpl.
      destruct (Forall2_lookup_r _ _ _ _ _ Hpaths Hj)
        as (leaf & Hleaf & _ & _ & Hiff & _).
      exists leaf. split; [exact Hleaf|]. apply Hiff, Hin.
    + intros (leaf & Hleaf & Hanc).
      destruct (Forall2_lookup_l _ _ _ _ _ Hpaths Hleaf)
        as (path & Hpath & _ & _ & Hiff & _).
      exists i, path. split; [reflexivity|]. split; [exact Hpath|]. apply Hiff, Hanc.
  - intros k. rewrite Hk, lookup_total_empty. simpl.
    rewrite (Forall2_length _ _ _ Hpaths). apply routed_to_sublist.
    eapply Forall2_Forall_r; [exact Hpaths|].
    apply Forall_forall. intros leaf _ path H. apply H.
Qed.

Lemma get_node_samples_ancestors_witness :
  ∃ m, get_node_samples example_adapter 4 = Ok m
       ∧ (∀ (i : nat) (k : Z),
            i ∈ m !!! k ↔
            ∃ leaf, [1; 2; 1] !! i = Some leaf
                    ∧ (k = leaf
                       ∨ tc (parent_rel (children_left example_adapter)
                                        (children_right example_adapter)) k leaf))
       ∧ (∀ k : Z, sublist (m !!! k) (seq 0 (length [1; 2; 1]))).
Proof.
  apply (get_node_samples_ancestors example_adapter [1; 2; 1] 4).
  - exact example_well_formed.
  - reflexivity.
  - simpl. repeat constructor; lia.
  - simpl. lia.
Defined.

(** ** From the table to the sample map *)

Lemma edges_links (t : btree) (p c : nat) :
  (p, c) ∈ edges t →
  (p, Z.of_nat c) ∈ left_links t ∨ (p, Z.of_nat c) ∈ right_links t.
Proof.
  induction t as [i|i l IHl r IHr]; simpl; intros H.
  - apply elem_of_nil in H. contradiction.
  - apply elem_of_cons in H as [H|H].
    { injection H as -> ->. left. left. }
    apply elem_of_cons in H as [H|H].
    { injection H as -> ->. right. left. }
    apply elem_of_app in H as [H|H].
    + destruct (IHl H) as [H'|H']; [left|right]; right; apply elem_of_app; auto.
    + destruct (IHr H) as [H'|H']; [left|right]; right; apply elem_of_app; auto.
Qed.

Section TableAncestors.
Variables (t : btree) (cl cr : list Z).
Hypothesis ids_dense : node_ids t ≡ₚ seq 0 (length cl).
Hypothesis same_length : length cl = length cr.
Hypothesis left_cells : ∀ p, p ∈ left_links t → cl !! p.1 = Some p.2.
Hypothesis right_cells : ∀ p, p ∈ right_links t → cr !! p.1 = Some p.2.

(** The ancestors the arrays give a node are its ancestors in the tree. *)
Lemma ancestors_in_tree (k leaf : nat) :
  tc (parent_rel cl cr) (Z.of_nat k) (Z.of_nat leaf)
  ↔ tc (λ p c : nat, (p, c) ∈ edges t) k leaf.
Proof.
  split.
  - assert (H : ∀ x y, tc (parent_rel cl cr) x y → 0 ≤ y →
                       tc (λ p c : nat, (p, c) ∈ edges t) (Z.to_nat x) (Z.to_nat y)).
    { induction 1 as [x y Hxy|x y z Hxy Hyz IH]; intros Hpos.
      - destruct (parent_rel_edge t cl cr ids_dense same_length left_cells right_cells
                    x y Hxy Hpos) as (i & j & -> & -> & He).
        rewrite !Nat2Z.id. apply tc_once, He.
      - assert (Hy : 0 ≤ y).
        { inversion Hyz as [? ? (i & -> & _)|? ? ? (i & -> & _) _]; lia. }
        destruct (parent_rel_edge t cl cr ids_dense same_length left_cells right_cells
                    x y Hxy Hy) as (i & j & -> & -> & He).
        rewrite Nat2Z.id. eapply tc_l; [exact He|].
        specialize (IH Hpos). rewrite Nat2Z.id in IH. exact IH. }
    intros Htc. specialize (H _ _ Htc ltac:(lia)).
    rewrite !Nat2Z.id in H. exact H.
  - apply (tc_congruence Z.of_nat). intros p c He.
    exists p. split; [reflexivity|].
    destruct (edges_links t p c He) as [Hl|Hr].
    + left. apply (left_cells _ Hl).
    + right. apply (right_cells _ Hr).
Qed.
End TableAncestors.

(** X14. From the table to the map: for the node table of a tree and
    leaf assignments that are node ids, [__init__] succeeds and
    [get_node_samples] lists all samples under the root and lists a
    sample under node [k] exactly when [k] is its leaf or an ancestor of
    its leaf in the tree. *)
Theorem tree_table_sample_map (b : Booster) (idx : Z) (x : XData)
    (tree : nat) (t : btree) (leaves : list Z) (fuel : nat) :
  table_of_tree tree (_get_tree_dataframe b idx) t →
  Z.of_nat (length (_get_tree_dataframe b idx)) ≤ 2 ^ 63 →
  np_column (predict_pred_leaf b x) idx = Ok leaves →
  Forall (λ leaf, 0 ≤ leaf < Z.of_nat (length (_get_tree_dataframe b idx))) leaves →
  (length (_get_tree_dataframe b idx) < fuel)%nat →
  ∃ self m,
    __init__ b idx x = Ok self
    ∧ get_node_samples self fuel = Ok m
    ∧ m !!! ROOT_NODE = seq 0 (length leaves)
    ∧ ∀ i k : nat,
        i ∈ m !!! Z.of_nat k ↔
        ∃ leaf : nat, leaves !! i = Some (Z.of_nat leaf)
                      ∧ (k = leaf ∨ tc (λ p c : nat, (p, c) ∈ edges t) k leaf).
Proof.
  intros Htable Hn Hcol Hleaves Hfuel.
  destruct (table_children tree _ t Htable Hn)
    as (cl & cr & Hcl & Hcr & Hlenl & Hlenr & Hleft & Hright).
  assert (Hinit : __init__ b idx x
                  = Ok {| booster := b; tree_index := idx; x_data := x;
                          tree_to_dataframe := _get_tree_dataframe b idx;
                          children_left := cl; children_right := cr |})
    by (unfold __init__; rewrite Hcl, Hcr; reflexivity).
  pose proof (table_arrays_well_formed b idx x tree t _ Htable Hn Hinit) as Htree.
  destruct Htable as (_ & Hperm & _). rewrite <- Hlenl in Hperm, Hleaves, Hfuel.
  assert (Hlen : length cl = length cr) by congruence.
  match type of Hinit with _ = Ok ?s => set (self := s) in * end.
  destruct (tree_paths self leaves fuel Htree Hleaves Hfuel) as (paths & Hpaths).
  destruct (route_samples_spec self fuel leaves paths) with (first := 0%nat)
    (m := (∅ : gmap Z (list nat))) as (m & Hm & Hk).
  { eapply Forall2_impl; [exact Hpaths|]. intros leaf path H. apply H. }
  exists self, m. split; [exact Hinit|]. split.
  { unfold get_node_samples. subst self. cbn [booster x_data tree_index].
    rewrite Hcol. exact Hm. }
  split.
  - rewrite Hk, lookup_total_empty. simpl.
    rewrite (Forall2_length _ _ _ Hpaths). apply routed_to_once.
    eapply Forall2_Forall_r; [exact Hpaths|].
    apply Forall_forall. intros leaf _ path (_ & Hnd & _ & Hroot).
    apply NoDup_count_occ'; [apply NoDup_ListNoDup, Hnd|].
    apply list_elem_of_In, Hroot.
  - intros i k. rewrite Hk, lookup_total_empty. simpl. rewrite routed_to_elem. split.
    + intros (j & path & -> & Hj & Hin). simpl.
      destruct (Forall2_lookup_r _ _ _ _ _ Hpaths Hj)
        as (leaf & Hleaf & _ & _ & Hiff & _).
      pose proof (proj1 (Forall_lookup _ _) Hleaves _ _ Hleaf) as Hrange.
      cbv beta in Hrange.
      exists (Z.to_nat leaf). rewrite Z2Nat.id by lia. split; [exact Hleaf|].
      apply Hiff in Hin. destruct Hin as [Hin|Hanc]; [left; lia|right].
      apply (ancestors_in_tree t cl cr Hperm Hlen Hleft Hright).
      rewrite Z2Nat.id by lia. exact Hanc.
    + intros (leaf & Hleaf & Hanc).
      destruct (Forall2_lookup_l _ _ _ _ _ Hpaths Hleaf)
        as (path & Hpath & _ & _ & Hiff & _).
      exists i, path. split; [reflexivity|]. split; [exact Hpath|]. apply Hiff.
      destruct Hanc as [->|Hanc]; [left; reflexivity|right].
      apply (ancestors_in_tree t cl cr Hperm Hlen Hleft Hright), Hanc.
Qed.

Lemma tree_table_sample_map_witness :
  ∃ self m,
    __init__ (example_booster "binary:logistic") 0 [] = Ok self
    ∧ get_node_samples self 4 = Ok m
    ∧ m !!! ROOT_NODE = seq 0 (length [1; 2; 1])
    ∧ ∀ i k : nat,
        i ∈ m !!! Z.of_nat k ↔
        ∃ leaf : nat, [1; 2; 1] !! i = Some (Z.of_nat leaf)
                      ∧ (k = leaf
                         ∨ tc (λ p c : nat, (p, c) ∈ edges example_btree) k leaf).
Proof.
  apply (tree_table_sample_map (example_booster "binary:logistic") 0 []
           0%nat example_btree [1; 2; 1] 4).
  - exact example_table_of_tree.
  - simpl. lia.
  - reflexivity.
  - simpl. repeat constructor; lia.
  - simpl. lia.
Defined.

(** X15. For the node table of a tree, [__init__] succeeds and keeps
    that table; [nnodes] is the number of nodes of the tree; the parent
    relation of the two arrays on node ids is the edge relation of the
    tree; the arrays form a tree (one parent per node but the root, no
    cycle), and the walk then returns from every starting id, with one
    path for all depth allowances above [nnodes]. *)
Theorem tree_table_walk_terminates (b : Booster) (idx : Z) (x : XData)
    (tree : nat) (t : btree) :
  table_of_tree tree (_get_tree_dataframe b idx) t →
  Z.of_nat (length (_get_tree_dataframe b idx)) ≤ 2 ^ 63 →
  ∃ self,
    __init__ b idx x = Ok self
    ∧ tree_to_dataframe self = _get_tree_dataframe b idx
    ∧ nnodes self = length (node_ids t)
    ∧ (∀ p c : nat,
         (p, c) ∈ edges t
         ↔ parent_rel (children_left self) (children_right self)
             (Z.of_nat p) (Z.of_nat c))
    ∧ well_formed_tree (children_left self) (children_right self)
    ∧ ∀ leaf : Z, ∃ path,
        ∀ fuel : nat, (nnodes self < fuel)%nat →
                      _get_leaf_prediction_path self fuel leaf = Ok path.
Proof.
  intros Htable Hn.
  destruct (table_children tree _ t Htable Hn)
    as (cl & cr & Hcl & Hcr & Hlenl & Hlenr & Hleft & Hright).
  assert (Hinit : __init__ b idx x
                  = Ok {| booster := b; tree_index := idx; x_data := x;
                          tree_to_dataframe := _get_tree_dataframe b idx;
                          children_left := cl; children_right := cr |})
    by (unfold __init__; rewrite Hcl, Hcr; reflexivity).
  pose proof (table_arrays_well_formed b idx x tree t _ Htable Hn Hinit) as Htree.
  destruct Htable as (_ & Hperm & _).
  eexists. split; [exact Hinit|]. split; [reflexivity|].
  unfold nnodes. cbn [tree_to_dataframe children_left children_right].
  split; [rewrite Hperm; symmetry; apply length_seq|].
  split.
  { rewrite <- Hlenl in Hperm.
    assert (Hlen : length cl = length cr) by congruence.
    intros p c. split.
    - intros He. exists p. split; [reflexivity|].
      destruct (edges_links t p c He) as [Hl|Hr].
      + left. apply (Hleft _ Hl).
      + right. apply (Hright _ Hr).
    - intros Hrel.
      destruct (parent_rel_edge t cl cr Hperm Hlen Hleft Hright _ _ Hrel)
        as (i & j & Hi & Hj & He); [lia|].
      apply Nat2Z.inj in Hi, Hj. subst i j. exact He. }
  split; [exact Htree|]. intros leaf.
  destruct (walk_returns_in_tree _ _ Htree (S (length cl)) leaf
              {| prediction_path := [leaf]; searches := 0 |}) as (st & Hst);
    [simpl; lia|].
  exists (prediction_path st). intros fuel Hfuel.
  unfold _get_leaf_prediction_path, walk_from_leaf.
  assert (Hle : (S (length cl) ≤ fuel)%nat) by lia.
  rewrite (walk_fuel_mono _ _ _ fuel _ _ _ Hle Hst). reflexivity.
Qed.

Lemma tree_table_walk_terminates_witness :
  ∃ self,
    __init__ (example_booster "binary:logistic") 0 [] = Ok self
    ∧ tree_to_dataframe self
      = _get_tree_dataframe (example_booster "binary:logistic") 0
    ∧ nnodes self = length (node_ids example_btree)
    ∧ (∀ p c : nat,
         (p, c) ∈ edges example_btree
         ↔ parent_rel (children_left self) (children_right self)
             (Z.of_nat p) (Z.of_nat c))
    ∧ well_formed_tree (children_left self) (children_right self)
    ∧ ∀ leaf : Z, ∃ path,
        ∀ fuel : nat, (nnodes self < fuel)%nat →
                      _get_leaf_prediction_path self fuel leaf = Ok path.
Proof.
  apply (tree_table_walk_terminates (example_booster "binary:logistic") 0 []
           0%nat example_btree).
  - exact example_table_of_tree.
  - simpl. lia.
Defined.
